(** * Conjugate gradient notebook: the Polak-Ribiere iteration and its line search

    A shallow embedding of the executable cells of
    [conjugate_gradient_method.ipynb]: the objective [f], the forward
    finite-difference gradient [grad], [normalize], [line_grad],
    [my_line_search], [get_next_x], [get_next_p] and the driver loop.

    Numbers.  The notebook computes with numpy's float64.  The program is
    written once over an abstract arithmetic ([Arith]): a carrier with the
    operations the notebook uses and no laws.  Whatever is proved at that level
    holds for any arithmetic, IEEE rounding included.  Properties that speak of
    values (bounds, signs, exact formulas) are proved for the instance [R_arith],
    the real numbers, that is for the notebook run in exact arithmetic.  Two
    more instances compute, [Q_arith] (exact) and [Fixed_arith] (rounded to
    twenty decimals); they are used to run the definitions.

    State.  The functions are pure and are embedded as functions.  The
    cells that drive the iteration assign global names; they are embedded
    twice, as a function of the start point ([driver]) and statement by
    statement on the namespace of the notebook ([run_cells]), where a name
    may be unbound or still bound from an earlier run.

    Arrays.  A 2-D numpy array is a list of rows, a 1-D array a list.  The
    functions below are total: where numpy raises on an index out of range or
    on shapes that do not match, they read a default or truncate.  Every
    theorem is about arrays of the notebook's shapes, (3,1) and (3,3), where
    numpy raises nothing. *)

From Stdlib Require Import String ZArith Bool Lia List.
From Stdlib Require Import QArith Reals Lra.
Import ListNotations.

Set Implicit Arguments.

(** ** Arithmetic *)

Declare Scope num_scope.
Delimit Scope num_scope with num.

Class Arith (A : Type) : Type := {
  ofZ : Z -> A;                (* an int used where a float is expected *)
  num_add : A -> A -> A;
  num_sub : A -> A -> A;
  num_mul : A -> A -> A;
  num_div : A -> A -> A;
  num_opp : A -> A;
  num_pow : A -> nat -> A;     (* [x ** n] for a literal [n] *)
  num_sqrt : A -> A;
  num_gtb : A -> A -> bool;    (* [x > y] *)
  num_ltb : A -> A -> bool;    (* [x < y] *)
  num_eqb : A -> A -> bool     (* [x == y] *)
}.

Infix "+" := num_add : num_scope.
Infix "-" := num_sub : num_scope.
Infix "*" := num_mul : num_scope.
Infix "/" := num_div : num_scope.
Notation "- x" := (num_opp x) : num_scope.
Infix "^" := num_pow : num_scope.
Infix ">?" := num_gtb (at level 70) : num_scope.
Infix "<?" := num_ltb (at level 70) : num_scope.
Infix "==?" := num_eqb (at level 70) : num_scope.

(** ** Outcomes of a Python call *)

Inductive exn : Type :=
| TimeoutError (msg : string)
| UnboundLocalError (name : string)
| NameError (name : string).

(** [OutOfFuel] belongs to the model only: the loops are written with a
    bound on the number of times their test is evaluated.  It is never the
    outcome of a call ([my_line_search_total], [driver_total]). *)
Inductive result (T : Type) : Type :=
| Ok (v : T)
| Raise (e : exn)
| OutOfFuel.

Arguments Ok {T} v.
Arguments Raise {T} e.
Arguments OutOfFuel {T}.

Definition bind {T U : Type} (r : result T) (k : T -> result U) : result U :=
  match r with
  | Ok v => k v
  | Raise e => Raise e
  | OutOfFuel => OutOfFuel
  end.

Definition bounds_timeout : exn := TimeoutError "Timed out in bounds expansion".
Definition search_timeout : exn := TimeoutError "Timed out in binary search".

Notation "'let*' x ':=' r 'in' k" := (bind r (fun x => k))
  (at level 10, x pattern, r at level 100, k at level 200).

(** ** numpy *)

Module np.
Definition vector (A : Type) : Type := list A.
Definition matrix (A : Type) : Type := list (list A).

Section Arrays.
Context {A : Type} {ar : Arith A}.
Local Open Scope num_scope.

Definition nrows (m : matrix A) : nat := length m.
Definition ncols (m : matrix A) : nat := length (hd [] m).
(* [m.shape] *)
Definition shape (m : matrix A) : nat * nat := (nrows m, ncols m).

(* [m[i]]: row [i], a 1-D array *)
Definition row (i : nat) (m : matrix A) : vector A := nth i m [].
(* [m[i,j]] *)
Definition get (i j : nat) (m : matrix A) : A := nth j (row i m) (ofZ 0).
Definition column (j : nat) (m : matrix A) : vector A :=
  map (fun r => nth j r (ofZ 0)) m.

(* [m.T] *)
Definition T (m : matrix A) : matrix A :=
  map (fun j => column j m) (seq 0 (ncols m)).

(* [np.ones(shape)] *)
Definition ones (sh : nat * nat) : matrix A :=
  repeat (repeat (ofZ 1) (snd sh)) (fst sh).

(* [np.eye(n)] *)
Definition eye (n : nat) : matrix A :=
  map (fun i => map (fun j => if Nat.eqb i j then ofZ 1 else ofZ 0) (seq 0 n))
      (seq 0 n).

Definition sum (v : vector A) : A := fold_right num_add (ofZ 0) v.

Definition dot (u v : vector A) : A :=
  sum (map (fun ab => fst ab * snd ab) (combine u v)).

(* [m1 @ m2] *)
Definition matmul (m1 m2 : matrix A) : matrix A :=
  map (fun r => map (fun c => dot r c) (T m2)) m1.

(* a 1-D array combined with a scalar, elementwise *)
Definition vmap (g : A -> A) (v : vector A) : vector A := map g v.
(* two 1-D arrays of one length combined elementwise *)
Definition vzip (op : A -> A -> A) (u v : vector A) : vector A :=
  map (fun ab => op (fst ab) (snd ab)) (combine u v).

(* a 2-D array combined with a scalar, elementwise *)
Definition mmap (g : A -> A) (m : matrix A) : matrix A := map (map g) m.

(* Two 2-D arrays combined elementwise under numpy's broadcasting: an
   axis of length 1 is stretched to the other array's length. *)
Definition bget (m : matrix A) (i j : nat) : A :=
  get (if Nat.eqb (nrows m) 1 then 0%nat else i)
      (if Nat.eqb (ncols m) 1 then 0%nat else j) m.

Definition broadcast (op : A -> A -> A) (m1 m2 : matrix A) : matrix A :=
  map (fun i =>
         map (fun j => op (bget m1 i j) (bget m2 i j))
             (seq 0 (Nat.max (ncols m1) (ncols m2))))
      (seq 0 (Nat.max (nrows m1) (nrows m2))).

(* [v.reshape(sh)] for a 1-D array [v] *)
Definition reshape (sh : nat * nat) (v : vector A) : matrix A :=
  map (fun i => firstn (snd sh) (skipn (i * snd sh) v)) (seq 0 (fst sh)).

Definition flatten (m : matrix A) : vector A := concat m.

(* [np.linalg.norm(m)]: the root of the sum of the squared entries *)
Definition norm (m : matrix A) : A :=
  num_sqrt (sum (map (fun e => e ^ 2) (flatten m))).

(* [np.array([[x], [y], [z]])] *)
Definition col3 (x y z : A) : matrix A := [[x]; [y]; [z]].

(* A 3-D array is a list of 2-D arrays.  [t[:,:,0]] *)
Definition slice_last_0 (t : list (matrix A)) : matrix A := map (column 0) t.

(* [np.linalg.norm(t, axis=1)] for a 3-D array [t]: the 2-norm taken along
   the middle axis, one number for each first and last index *)
Definition norm_axis1 (t : list (matrix A)) : matrix A :=
  map (fun m =>
         map (fun k => num_sqrt (sum (map (fun e => e ^ 2) (column k m))))
             (seq 0 (ncols m)))
      t.

(* [np.concatenate([u, v], axis=-1)] for two 2-D arrays with as many rows *)
Definition concatenate_last (u v : matrix A) : matrix A :=
  map (fun rs => fst rs ++ snd rs) (combine u v).
End Arrays.
End np.

(** The array operators of the notebook: [@], and [+ - * /] between two
    arrays or between a scalar and an array. *)
Notation "m1 '.@' m2" := (np.matmul m1 m2)
  (at level 40, left associativity) : num_scope.
Notation "m1 '.+' m2" := (np.broadcast num_add m1 m2)
  (at level 50, left associativity) : num_scope.
Notation "m1 '.-' m2" := (np.broadcast num_sub m1 m2)
  (at level 50, left associativity) : num_scope.
Notation "m1 '.*' m2" := (np.broadcast num_mul m1 m2)
  (at level 40, left associativity) : num_scope.
Notation "m1 './' m2" := (np.broadcast num_div m1 m2)
  (at level 40, left associativity) : num_scope.
Notation "s '*:' m" := (np.mmap (fun e => num_mul s e) m)
  (at level 40, left associativity) : num_scope.

(** ** The notebook *)

Section Notebook.
Context {A : Type} {ar : Arith A}.
Local Open Scope num_scope.

(* the globals [a] and [b]; the notebook sets them to 2 and 3 *)
Variables a b : A.

(* def f(x): return (a*(x[0]-1)**4+(x[1]-2)**2+b*(x[2]-1)**4) *)
Definition f (x : np.matrix A) : list A :=
  np.vzip num_add
    (np.vzip num_add
       (np.vmap (fun e => a * e) (np.vmap (fun e => (e - ofZ 1) ^ 4) (np.row 0 x)))
       (np.vmap (fun e => (e - ofZ 2) ^ 2) (np.row 1 x)))
    (np.vmap (fun e => b * e) (np.vmap (fun e => (e - ofZ 1) ^ 4) (np.row 2 x))).

(* the literal 1e-7, the default of [delta] and of [tolerance] *)
Definition lit_1e_7 : A := ofZ 1 / ofZ 10000000.
(* the literal 1e-3, the default of [feeler_init] *)
Definition lit_1e_3 : A := ofZ 1 / ofZ 1000.

(* def grad(pt, delta = 1e-7):
       xs = (pt @ np.ones(pt.shape).T)
       xh = xs + np.eye(pt.shape[0])*delta
       return ((f(xh)-f(xs))/delta).reshape(pt.shape) *)
Definition grad (pt : np.matrix A) (delta : A) : np.matrix A :=
  let xs := pt .@ np.T (np.ones (np.shape pt)) in
  let xh := xs .+ np.mmap (fun e => e * delta) (np.eye (fst (np.shape pt))) in
  np.reshape (np.shape pt)
    (np.vmap (fun e => e / delta) (np.vzip num_sub (f xh) (f xs))).

(* def normalize(vec):
       vec = np.array(vec, "float")
       norm = np.linalg.norm(vec)
       return vec if norm == 0 else vec/norm *)
Definition normalize (vec : np.matrix A) : np.matrix A :=
  let norm := np.norm vec in
  if norm ==? ofZ 0 then vec else np.mmap (fun e => e / norm) vec.

(* def line_grad(x, p): return (grad(x).T @ normalize(p))[0,0] *)
Definition line_grad (x p : np.matrix A) : A :=
  np.get 0 0 (np.T (grad x lit_1e_7) .@ normalize p).

(* Python's [max(u, v)] and [min(u, v)]: the first argument unless the
   second is strictly beyond it *)
Definition py_max (u v : A) : A := if v >? u then v else u.
Definition py_min (u v : A) : A := if v <? u then v else u.

Section LineSearch.
Variables x p : np.matrix A.
Variables feeler_init feeler_step tolerance : A.
Variable max_iters : Z.

(* i = 0
   while lgla * line_grad(x+lb*p, p) > 0:
       lb *= feeler_step
       i += 1
       if i >= max_iters: raise TimeoutError("Timed out in bounds expansion") *)
Fixpoint expand (fuel : nat) (lgla : A) (i : Z) (lb : A) : result A :=
  match fuel with
  | O => OutOfFuel
  | S fuel' =>
      if lgla * line_grad (x .+ lb *: p) p >? ofZ 0 then
        let lb := lb * feeler_step in
        let i := (i + 1)%Z in
        if (i >=? max_iters)%Z
        then Raise bounds_timeout
        else expand fuel' lgla i lb
      else Ok lb
  end.

(* The variables of the second loop; [lnew] is unbound until the body
   has run once. *)
Record bracket : Type := Bracket {
  lmin : A;
  lmax : A;
  lnew : option A
}.

(* i = 0
   while lmax-lmin > tolerance:
       lnew = (lmax+lmin)/2
       if line_grad(x+lnew*p, p) > 0: lmax = lnew
       else: lmin = lnew
       i += 1
       if i >= max_iters: raise TimeoutError("Timed out in binary search") *)
Definition bisect_body (s : bracket) : bracket :=
  let lnew := (lmax s + lmin s) / ofZ 2 in
  if line_grad (x .+ lnew *: p) p >? ofZ 0
  then Bracket (lmin s) lnew (Some lnew)
  else Bracket lnew (lmax s) (Some lnew).

Fixpoint bisect (fuel : nat) (i : Z) (s : bracket) : result bracket :=
  match fuel with
  | O => OutOfFuel
  | S fuel' =>
      if lmax s - lmin s >? tolerance then
        let s := bisect_body s in
        let i := (i + 1)%Z in
        if (i >=? max_iters)%Z
        then Raise search_timeout
        else bisect fuel' i s
      else Ok s
  end.

(* Either loop evaluates its test at most [max(1, max_iters)] times. *)
Definition loop_fuel : nat := S (Z.to_nat max_iters).

(* def my_line_search(x, p, feeler_init = 1e-3, feeler_step=2,
                      tolerance=1e-7, max_iters=1000):
       la = 0
       lgla = line_grad(x, p)
       lb = -line_grad(x, p)*feeler_init
       (first loop)
       lmax, lmin = max(la, lb), min(la, lb)
       (second loop)
       return x+lnew*p *)
Definition my_line_search : result (np.matrix A) :=
  let la := ofZ 0 in
  let lgla := line_grad x p in
  let lb := - line_grad x p * feeler_init in
  let* lb := expand loop_fuel lgla 0 lb in
  let s := Bracket (py_min la lb) (py_max la lb) None in
  let* s := bisect loop_fuel 0 s in
  match lnew s with
  | Some lnew => Ok (x .+ lnew *: p)
  | None => Raise (UnboundLocalError "lnew")
  end.

(** Views of the two loops, used to state what they do. *)

(* the point [x+l*p] and the derivative measured there *)
Definition at_step (l : A) : np.matrix A := x .+ l *: p.
Definition phi (l : A) : A := line_grad (at_step l) p.

(* the test of the first loop, and the value of [lb] after [k] rounds *)
Definition expand_test (lgla lb : A) : bool := lgla * phi lb >? ofZ 0.
Definition nth_lb (lb : A) (k : nat) : A :=
  Nat.iter k (fun l => l * feeler_step) lb.

(* the test of the second loop, and the bracket after [k] rounds *)
Definition bisect_test (s : bracket) : bool := lmax s - lmin s >? tolerance.
Definition nth_bracket (s : bracket) (k : nat) : bracket :=
  Nat.iter k bisect_body s.
End LineSearch.

(* def get_next_x(this_x, this_p): return my_line_search(this_x, this_p) *)
Definition get_next_x (this_x this_p : np.matrix A) : result (np.matrix A) :=
  my_line_search this_x this_p lit_1e_3 (ofZ 2) lit_1e_7 1000.

(* def get_next_p(this_x, next_x, this_p):
       numer = (grad(next_x)-grad(this_x)).T @ grad(next_x)
       denom = grad(this_x).T @ grad(this_x)
       return grad(next_x)+(numer/denom)*this_p *)
Definition get_next_p (this_x next_x this_p : np.matrix A) : np.matrix A :=
  let numer := np.T (grad next_x lit_1e_7 .- grad this_x lit_1e_7) .@ grad next_x lit_1e_7 in
  let denom := np.T (grad this_x lit_1e_7) .@ grad this_x lit_1e_7 in
  grad next_x lit_1e_7 .+ (numer ./ denom) .* this_p.

(** The last code cell, as a function of the start point and of [n_iters]. *)
Record driver_state : Type := DriverState {
  this_x : np.matrix A;
  this_p : np.matrix A;
  x_ts : list (np.matrix A);
  p_ts : list (np.matrix A);
  i : Z
}.

(* next_x = get_next_x(this_x, this_p)
   next_p = get_next_p(this_x, next_x, this_p)
   this_x, this_p = next_x, next_p
   x_ts.append(this_x)
   p_ts.append(this_p)
   i += 1 *)
Definition driver_body (s : driver_state) : result driver_state :=
  let* next_x := get_next_x (this_x s) (this_p s) in
  let next_p := get_next_p (this_x s) next_x (this_p s) in
  Ok (DriverState next_x next_p
        (x_ts s ++ [next_x]) (p_ts s ++ [next_p]) (i s + 1)%Z).

(* while (i < n_iters): (body) *)
Fixpoint driver_loop (n_iters : Z) (fuel : nat) (s : driver_state)
  : result driver_state :=
  match fuel with
  | O => OutOfFuel
  | S fuel' =>
      if (i s <? n_iters)%Z then
        let* s := driver_body s in driver_loop n_iters fuel' s
      else Ok s
  end.

(* p0 = grad(x0)
   this_x, this_p = x0, p0
   x_ts = [this_x]
   p_ts = [this_p]
   i = 1 *)
Definition driver_init (x0 : np.matrix A) : driver_state :=
  let p0 := grad x0 lit_1e_7 in
  DriverState x0 p0 [x0] [p0] 1.

Definition driver (x0 : np.matrix A) (n_iters : Z) : result driver_state :=
  driver_loop n_iters (S (Z.to_nat n_iters)) (driver_init x0).

(* answer = np.array([[1], [2], [1]]) *)
Definition answer : np.matrix A := np.col3 (ofZ 1) (ofZ 2) (ofZ 1).

(* results = np.concatenate([np.array(x_ts)[:,:,0],
                             np.linalg.norm(np.array(x_ts)-answer, axis=1)],
                            axis=-1) *)
Definition results (x_ts : list (np.matrix A)) : np.matrix A :=
  np.concatenate_last
    (np.slice_last_0 x_ts)
    (np.norm_axis1 (map (fun m => m .- answer) x_ts)).

(* an array of shape (3,1) *)
Definition is_col3 (m : np.matrix A) : Prop :=
  exists x y z : A, m = np.col3 x y z.

(* the recorded pairs, in order *)
Definition trajectory (s : driver_state) : list (np.matrix A * np.matrix A) :=
  combine (x_ts s) (p_ts s).

(* consecutive pairs are related by one line search and one update *)
Definition follows_recurrence (t : list (np.matrix A * np.matrix A)) : Prop :=
  forall (k : nat) (xk pk xk1 pk1 : np.matrix A),
    nth_error t k = Some (xk, pk) ->
    nth_error t (S k) = Some (xk1, pk1) ->
    get_next_x xk pk = Ok xk1 /\ pk1 = get_next_p xk xk1 pk.

(* what holds of the driver's variables each time the loop's test is run *)
Definition driver_inv (x0 : np.matrix A) (s : driver_state) : Prop :=
  (1 <= i s)%Z
  /\ length (x_ts s) = Z.to_nat (i s)
  /\ length (p_ts s) = Z.to_nat (i s)
  /\ nth_error (trajectory s) 0 = Some (x0, grad x0 lit_1e_7)
  /\ nth_error (trajectory s) (Z.to_nat (i s) - 1) = Some (this_x s, this_p s)
  /\ follows_recurrence (trajectory s).

(** ** The same cells on the notebook's namespace

    The statements of the driver once more, one by one, as they act on the
    global namespace of the notebook.  A cell runs in the namespace that the
    cells run before it have left, earlier runs of the same cell included.
    A name is unbound ([None]) until a statement assigns it, and reading an
    unbound global raises [NameError].  Arrays are values here: no statement
    of the notebook changes an array in place.  The lists [x_ts] and [p_ts]
    are changed in place by [append], each through the one name bound to
    it.  The functions, [a] and [b] are as the earlier cells define them. *)
Record namespace : Type := Namespace {
  g_x0 : option (np.matrix A);
  g_p0 : option (np.matrix A);
  g_n_iters : option Z;
  g_this_x : option (np.matrix A);
  g_this_p : option (np.matrix A);
  g_x_ts : option (list (np.matrix A));
  g_p_ts : option (list (np.matrix A));
  g_i : option Z;
  g_next_x : option (np.matrix A);
  g_next_p : option (np.matrix A)
}.

(* reading a global *)
Definition load {T : Type} (name : string) (v : option T) : result T :=
  match v with
  | Some v => Ok v
  | None => Raise (NameError name)
  end.

(* binding a global *)
Definition set_p0 (v : np.matrix A) (g : namespace) : namespace :=
  Namespace (g_x0 g) (Some v) (g_n_iters g) (g_this_x g) (g_this_p g)
    (g_x_ts g) (g_p_ts g) (g_i g) (g_next_x g) (g_next_p g).
Definition set_n_iters (v : Z) (g : namespace) : namespace :=
  Namespace (g_x0 g) (g_p0 g) (Some v) (g_this_x g) (g_this_p g)
    (g_x_ts g) (g_p_ts g) (g_i g) (g_next_x g) (g_next_p g).
Definition set_this_x (v : np.matrix A) (g : namespace) : namespace :=
  Namespace (g_x0 g) (g_p0 g) (g_n_iters g) (Some v) (g_this_p g)
    (g_x_ts g) (g_p_ts g) (g_i g) (g_next_x g) (g_next_p g).
Definition set_this_p (v : np.matrix A) (g : namespace) : namespace :=
  Namespace (g_x0 g) (g_p0 g) (g_n_iters g) (g_this_x g) (Some v)
    (g_x_ts g) (g_p_ts g) (g_i g) (g_next_x g) (g_next_p g).
Definition set_x_ts (v : list (np.matrix A)) (g : namespace) : namespace :=
  Namespace (g_x0 g) (g_p0 g) (g_n_iters g) (g_this_x g) (g_this_p g)
    (Some v) (g_p_ts g) (g_i g) (g_next_x g) (g_next_p g).
Definition set_p_ts (v : list (np.matrix A)) (g : namespace) : namespace :=
  Namespace (g_x0 g) (g_p0 g) (g_n_iters g) (g_this_x g) (g_this_p g)
    (g_x_ts g) (Some v) (g_i g) (g_next_x g) (g_next_p g).
Definition set_i (v : Z) (g : namespace) : namespace :=
  Namespace (g_x0 g) (g_p0 g) (g_n_iters g) (g_this_x g) (g_this_p g)
    (g_x_ts g) (g_p_ts g) (Some v) (g_next_x g) (g_next_p g).
Definition set_next_x (v : np.matrix A) (g : namespace) : namespace :=
  Namespace (g_x0 g) (g_p0 g) (g_n_iters g) (g_this_x g) (g_this_p g)
    (g_x_ts g) (g_p_ts g) (g_i g) (Some v) (g_next_p g).
Definition set_next_p (v : np.matrix A) (g : namespace) : namespace :=
  Namespace (g_x0 g) (g_p0 g) (g_n_iters g) (g_this_x g) (g_this_p g)
    (g_x_ts g) (g_p_ts g) (g_i g) (g_next_x g) (Some v).

(* p0 = grad(x0) *)
Definition stmt_p0 (g : namespace) : result namespace :=
  let* x0 := load "x0" (g_x0 g) in
  Ok (set_p0 (grad x0 lit_1e_7) g).

(* n_iters = 20          (the literal is the parameter [n])
   this_x, this_p = x0, p0
   x_ts = [this_x]
   p_ts = [this_p]
   i = 1 *)
Definition cell_init (n : Z) (g : namespace) : result namespace :=
  let g := set_n_iters n g in
  let* x0 := load "x0" (g_x0 g) in
  let* p0 := load "p0" (g_p0 g) in
  let g := set_this_p p0 (set_this_x x0 g) in
  let* this_x := load "this_x" (g_this_x g) in
  let g := set_x_ts [this_x] g in
  let* this_p := load "this_p" (g_this_p g) in
  let g := set_p_ts [this_p] g in
  Ok (set_i 1 g).

(* next_x = get_next_x(this_x, this_p)
   next_p = get_next_p(this_x, next_x, this_p)
   this_x, this_p = next_x, next_p
   x_ts.append(this_x)
   p_ts.append(this_p)
   i += 1 *)
Definition cell_body (g : namespace) : result namespace :=
  let* this_x := load "this_x" (g_this_x g) in
  let* this_p := load "this_p" (g_this_p g) in
  let* v := get_next_x this_x this_p in
  let g := set_next_x v g in
  let* this_x := load "this_x" (g_this_x g) in
  let* next_x := load "next_x" (g_next_x g) in
  let* this_p := load "this_p" (g_this_p g) in
  let g := set_next_p (get_next_p this_x next_x this_p) g in
  let* next_x := load "next_x" (g_next_x g) in
  let* next_p := load "next_p" (g_next_p g) in
  let g := set_this_p next_p (set_this_x next_x g) in
  let* l := load "x_ts" (g_x_ts g) in
  let* this_x := load "this_x" (g_this_x g) in
  let g := set_x_ts (l ++ [this_x]) g in
  let* l := load "p_ts" (g_p_ts g) in
  let* this_p := load "this_p" (g_this_p g) in
  let g := set_p_ts (l ++ [this_p]) g in
  let* i := load "i" (g_i g) in
  Ok (set_i (i + 1) g).

(* while (i < n_iters): (body) *)
Fixpoint cell_loop (fuel : nat) (g : namespace) : result namespace :=
  match fuel with
  | O => OutOfFuel
  | S fuel' =>
      let* i := load "i" (g_i g) in
      let* n_iters := load "n_iters" (g_n_iters g) in
      if (i <? n_iters)%Z then
        let* g := cell_body g in cell_loop fuel' g
      else Ok g
  end.

(* One run: [p0 = grad(x0)], then the last code cell with [n_iters = n]. *)
Definition run_cells (n : Z) (g : namespace) : result namespace :=
  let* g := stmt_p0 g in
  let* g := cell_init n g in
  cell_loop (S (Z.to_nat n)) g.

(* what a run leaves to be seen: the error raised, or the two lists *)
Definition recorded (r : result namespace)
  : result (option (list (np.matrix A)) * option (list (np.matrix A))) :=
  match r with
  | Ok g => Ok (g_x_ts g, g_p_ts g)
  | Raise e => Raise e
  | OutOfFuel => OutOfFuel
  end.

(* the namespace holds the variables of the loop as the state [s] has them *)
Definition binds (g : namespace) (s : driver_state) : Prop :=
  g_this_x g = Some (this_x s) /\ g_this_p g = Some (this_p s)
  /\ g_x_ts g = Some (x_ts s) /\ g_p_ts g = Some (p_ts s)
  /\ g_i g = Some (i s).

End Notebook.

Arguments bracket A : clear implicits.
Arguments driver_state A : clear implicits.
Arguments namespace A : clear implicits.

(** ** Exact arithmetic: the real numbers *)

Definition Rgtb (u v : R) : bool := if Rgt_dec u v then true else false.
Definition Rltb (u v : R) : bool := if Rlt_dec u v then true else false.
Definition Reqb (u v : R) : bool := if Req_dec_T u v then true else false.

#[export] Instance R_arith : Arith R := {
  ofZ := IZR;
  num_add := Rplus;
  num_sub := Rminus;
  num_mul := Rmult;
  num_div := Rdiv;
  num_opp := Ropp;
  num_pow := pow;
  num_sqrt := sqrt;
  num_gtb := Rgtb;
  num_ltb := Rltb;
  num_eqb := Reqb
}.

(** ** Exact arithmetic that computes: the rationals

    Sums, products, quotients and comparisons are exact, and results are
    kept in lowest terms.  The square root is
    exact on the square of a rational and rounded down otherwise, so a run
    over [Q_arith] is a run in exact arithmetic whenever every norm taken is
    rational, as it is for a direction along one axis. *)

Definition Qsqrt (q : Q) : Q :=
  let r := Qred q in
  Qmake (Z.sqrt (Qnum r * Zpos (Qden r))) (Qden r).

#[export] Instance Q_arith : Arith Q := {
  ofZ := inject_Z;
  num_add := fun u v => Qred (Qplus u v);
  num_sub := fun u v => Qred (Qminus u v);
  num_mul := fun u v => Qred (Qmult u v);
  num_div := fun u v => Qred (Qdiv u v);
  num_opp := Qopp;
  num_pow := fun q n => Qred (Qpower q (Z.of_nat n));
  num_sqrt := Qsqrt;
  num_gtb := fun u v => negb (Qle_bool u v);
  num_ltb := fun u v => negb (Qle_bool v u);
  num_eqb := Qeq_bool
}.

(** ** Rounded arithmetic that computes: twenty decimals

    A number is an integer count of units of 1e-20.  Sums and differences are
    exact; products, quotients and powers are rounded to the nearest unit,
    square roots down.  It stands for an arithmetic with rounding, as
    float64 is one, and serves to run the notebook's cells. *)

Module Fixed.
Definition scale : Z := (10 ^ 20)%Z.
Definition mul (u v : Z) : Z := ((2 * u * v + scale) / (2 * scale))%Z.
Definition div (u v : Z) : Z := ((2 * u * scale + v) / (2 * v))%Z.
Fixpoint pow (u : Z) (n : nat) : Z :=
  match n with
  | O => scale
  | S n' => mul u (pow u n')
  end.
Definition sqrt (u : Z) : Z := Z.sqrt (u * scale).
(* to six decimals, as an integer count of millionths *)
Definition round6 (u : Z) : Z := ((2 * u * 10 ^ 6 + scale) / (2 * scale))%Z.
End Fixed.

#[export] Instance Fixed_arith : Arith Z := {
  ofZ := fun z => (z * Fixed.scale)%Z;
  num_add := Z.add;
  num_sub := Z.sub;
  num_mul := Fixed.mul;
  num_div := Fixed.div;
  num_opp := Z.opp;
  num_pow := Fixed.pow;
  num_sqrt := Fixed.sqrt;
  num_gtb := Z.gtb;
  num_ltb := Z.ltb;
  num_eqb := Z.eqb
}.

Local Open Scope R_scope.

(** ** The specification's formulas, over the reals *)

Module Spec.
(* f(x,y,z) = a(x-1)^4 + (y-2)^2 + b(z-1)^4 *)
Definition objective (a b x y z : R) : R :=
  a * (x - 1) ^ 4 + (y - 2) ^ 2 + b * (z - 1) ^ 4.

(* the analytical gradient (4a(x-1)^3, 2(y-2), 4b(z-1)^3) *)
Definition analytic_grad (a b x y z : R) : np.matrix R :=
  np.col3 (4 * a * (x - 1) ^ 3) (2 * (y - 2)) (4 * b * (z - 1) ^ 3).

(* one-sided forward differences, coordinate [i] alone perturbed in
   component [i] *)
Definition forward_difference (a b x y z delta : R) : np.matrix R :=
  np.col3 ((objective a b (x + delta) y z - objective a b x y z) / delta)
          ((objective a b x (y + delta) z - objective a b x y z) / delta)
          ((objective a b x y (z + delta) - objective a b x y z) / delta).

(* u^T v for two 3-vectors held as (3,1) arrays *)
Definition inner (u v : np.matrix R) : R :=
  np.get 0 0 u * np.get 0 0 v + np.get 1 0 u * np.get 1 0 v
  + np.get 2 0 u * np.get 2 0 v.

Definition minus (u v : np.matrix R) : np.matrix R :=
  np.col3 (np.get 0 0 u - np.get 0 0 v) (np.get 1 0 u - np.get 1 0 v)
          (np.get 2 0 u - np.get 2 0 v).

(* beta = [(g_new - g_old)^T g_new] / [g_old^T g_old] *)
Definition beta (g_new g_old : np.matrix R) : R :=
  inner (minus g_new g_old) g_new / inner g_old g_old.

(* p_new = g_new + beta * p_old *)
Definition polak_ribiere (g_new g_old p_old : np.matrix R) : np.matrix R :=
  let beta := beta g_new g_old in
  np.col3 (np.get 0 0 g_new + beta * np.get 0 0 p_old)
          (np.get 1 0 g_new + beta * np.get 1 0 p_old)
          (np.get 2 0 g_new + beta * np.get 2 0 p_old).
End Spec.

(** ** The bracket of the second loop

    [sign_bracket L U s]: the bracket [s] lies in [L, U], is ordered, has a
    derivative that is not positive at its lower end and not negative at its
    upper end, and [lnew], once bound, is one of its ends and lies strictly
    inside (L, U). *)
Definition sign_bracket (a b : R) (x p : np.matrix R) (L U : R)
    (s : bracket R) : Prop :=
  L <= lmin s /\ lmin s <= lmax s /\ lmax s <= U
  /\ phi a b x p (lmin s) <= 0 /\ 0 <= phi a b x p (lmax s)
  /\ forall l : R, lnew s = Some l ->
                   (l = lmin s \/ l = lmax s) /\ L < l < U.

(** ** Inputs used below *)

(* x0 = np.array([[2], [3], [2]]) *)
Definition x0 : np.matrix R := np.col3 2 3 2.
(* a point whose derivative along the second axis is 1.5e-4 *)
Definition x_flat : np.matrix R := np.col3 1 (200007495 / 100000000) 1.
(* a long direction along the second axis *)
Definition p_long : np.matrix R := np.col3 0 1000000000 0.
(* the zero direction *)
Definition p_zero : np.matrix R := np.col3 0 0 0.
(* a point above the minimum along the second axis, and a direction along
   that axis of length 2^-1000 *)
Definition x_up : np.matrix R := np.col3 1 3 1.
Definition p_tiny : np.matrix R := np.col3 0 (/ 2 ^ 1000) 0.

(* the point at which the estimated gradient vanishes, for a step [delta] *)
Definition x_star (delta : R) : np.matrix R :=
  np.col3 (1 - delta / 2) (2 - delta / 2) (1 - delta / 2).
(* a point whose derivative along the second axis is 0.5e-4 *)
Definition x_nearly_flat : np.matrix R :=
  np.col3 1 (200002495 / 100000000) 1.

(* a start point at which the estimated gradient is (0, 500, 0) *)
Definition x_axis : np.matrix R :=
  np.col3 (1 - 1 / 20000000) (252 - 1 / 20000000) (1 - 1 / 20000000).
Definition p_axis : np.matrix R := np.col3 0 500 0.
(* the state in which the driver started at [x_axis] leaves its loop when
   [n_iters] is 2 *)
Definition x_axis_state : driver_state R :=
  let x1 := at_step x_axis p_axis (- 1 / 2 + / 2 ^ 24) in
  let p1 := get_next_p 2 3 x_axis x1 p_axis in
  DriverState x1 p1 [x_axis; x1] [p_axis; p1] 2.

(* two namespaces in which to run the driver from [x_axis]: one in which
   only [x0] is bound, and one that an earlier run with other settings has
   left behind *)
Definition fresh_namespace : namespace R :=
  Namespace (Some x_axis) None None None None None None None None None.
Definition used_namespace : namespace R :=
  Namespace (Some x_axis) (Some p_zero) (Some 20%Z) (Some x0) (Some p_long)
    (Some [x_up; x0; x_flat]) (Some [p_long; p_tiny; p_zero]) (Some 20%Z)
    (Some x0) (Some p_long).

(* the same inputs over the rationals *)
Definition Qx0 : np.matrix Q := np.col3 (2 # 1) (3 # 1) (2 # 1).
Definition Qx_flat : np.matrix Q :=
  np.col3 (1 # 1) (200007495 # 100000000) (1 # 1).
Definition Qp_long : np.matrix Q := np.col3 (0 # 1) (1000000000 # 1) (0 # 1).
Definition Qp_zero : np.matrix Q := np.col3 (0 # 1) (0 # 1) (0 # 1).

(* the notebook's problem in twenty decimals: a = 2, b = 3, x0 = (2,3,2) *)
Definition Fa : Z := @ofZ Z Fixed_arith 2.
Definition Fb : Z := @ofZ Z Fixed_arith 3.
Definition Fx0 : np.matrix Z := np.col3 (ofZ 2) (ofZ 3) (ofZ 2).

(** ** Tactics *)

(* the operations of [R_arith], named *)
Ltac to_R :=
  change (@ofZ R R_arith) with IZR in *;
  change (@num_add R R_arith) with Rplus in *;
  change (@num_sub R R_arith) with Rminus in *;
  change (@num_mul R R_arith) with Rmult in *;
  change (@num_div R R_arith) with Rdiv in *;
  change (@num_opp R R_arith) with Ropp in *;
  change (@num_pow R R_arith) with pow in *;
  change (@num_sqrt R R_arith) with sqrt in *;
  change (@num_gtb R R_arith) with Rgtb in *;
  change (@num_ltb R R_arith) with Rltb in *;
  change (@num_eqb R R_arith) with Reqb in *.

(* arrays of known shape, computed down to their entries *)
Ltac np_eval :=
  cbv [f grad lit_1e_7 lit_1e_3 at_step get_next_p
       Spec.objective Spec.analytic_grad Spec.forward_difference
       Spec.inner Spec.minus Spec.beta Spec.polak_ribiere
       np.nrows np.ncols np.shape np.row np.get np.column np.T np.ones np.eye
       np.sum np.dot np.matmul np.vmap np.vzip np.mmap np.bget np.broadcast
       np.reshape np.flatten np.col3
       List.map List.seq List.nth List.combine List.fold_right List.firstn
       List.skipn List.repeat List.hd List.length List.concat List.app
       Nat.eqb Nat.max Nat.mul Nat.add fst snd
       ofZ num_add num_sub num_mul num_div num_opp num_pow R_arith].

(** * Theorems *)

(** ** The loops, over any arithmetic

    Facts about control flow only: which tests a loop evaluates, when it
    leaves normally, when it raises.  No law of arithmetic is used. *)

Section Loops.
Context {A : Type} {ar : Arith A}.
Variables a b : A.
Variables x p : np.matrix A.
Variables feeler_step tolerance : A.
Variable max_iters : Z.
Local Open Scope num_scope.

Lemma nth_lb_shift (lb : A) (k : nat) :
  nth_lb feeler_step (lb * feeler_step) k = nth_lb feeler_step lb (S k).
Proof. unfold nth_lb. now rewrite Nat.iter_succ_r. Qed.

Lemma nth_bracket_shift (s : bracket A) (k : nat) :
  nth_bracket a b x p (bisect_body a b x p s) k = nth_bracket a b x p s (S k).
Proof. unfold nth_bracket. now rewrite Nat.iter_succ_r. Qed.

(** The first loop either leaves at the first [n] whose test fails, having
    run fewer than [max_iters] rounds, or raises, and then every test it
    evaluated held. *)
Lemma expand_cases (lgla : A) (fuel : nat) :
  forall (i : Z) (lb : A),
    (Z.to_nat (max_iters - i) < fuel)%nat ->
    (exists n : nat,
        expand a b x p feeler_step max_iters fuel lgla i lb = Ok (nth_lb feeler_step lb n)
        /\ expand_test a b x p lgla (nth_lb feeler_step lb n) = false
        /\ (forall j, (j < n)%nat -> expand_test a b x p lgla (nth_lb feeler_step lb j) = true)
        /\ (n = 0%nat \/ (i + Z.of_nat n < max_iters)%Z))
    \/ (expand a b x p feeler_step max_iters fuel lgla i lb = Raise bounds_timeout
        /\ forall j, (j = 0%nat \/ (i + Z.of_nat j < max_iters)%Z) ->
                     expand_test a b x p lgla (nth_lb feeler_step lb j) = true).
Proof.
  induction fuel as [|fuel IH]; intros i lb Hfuel; [lia|].
  cbn [expand].
  change (lgla * line_grad a b (x .+ lb *: p) p >? ofZ 0)
    with (expand_test a b x p lgla lb).
  destruct (expand_test a b x p lgla lb) eqn:Ht.
  - destruct (i + 1 >=? max_iters)%Z eqn:Hi.
    + right. split; [reflexivity|].
      intros j [->|Hj]; [exact Ht|].
      assert (j = 0%nat) as -> by lia. exact Ht.
    + destruct (IH (i + 1)%Z (lb * feeler_step)) as
        [(n & He & Hn & Hlt & Hb)|(He & Hall)]; [lia| |].
      * left. exists (S n). rewrite He, <- nth_lb_shift.
        repeat split; auto.
        -- intros [|j] Hj; [exact Ht|].
           rewrite <- nth_lb_shift. apply Hlt. lia.
        -- right. lia.
      * right. split; [exact He|].
        intros [|j] Hj; [exact Ht|].
        rewrite <- nth_lb_shift. apply Hall.
        destruct Hj as [Hj|Hj]; [discriminate|]. right. lia.
  - left. exists 0%nat. repeat split; auto. intros j Hj. lia.
Qed.

(** The same for the second loop. *)
Lemma bisect_cases (fuel : nat) :
  forall (i : Z) (s : bracket A),
    (Z.to_nat (max_iters - i) < fuel)%nat ->
    (exists n : nat,
        bisect a b x p tolerance max_iters fuel i s = Ok (nth_bracket a b x p s n)
        /\ bisect_test tolerance (nth_bracket a b x p s n) = false
        /\ (forall j, (j < n)%nat -> bisect_test tolerance (nth_bracket a b x p s j) = true)
        /\ (n = 0%nat \/ (i + Z.of_nat n < max_iters)%Z))
    \/ (bisect a b x p tolerance max_iters fuel i s = Raise search_timeout
        /\ forall j, (j = 0%nat \/ (i + Z.of_nat j < max_iters)%Z) ->
                     bisect_test tolerance (nth_bracket a b x p s j) = true).
Proof.
  induction fuel as [|fuel IH]; intros i s Hfuel; [lia|].
  cbn [bisect].
  change (lmax s - lmin s >? tolerance) with (bisect_test tolerance s).
  destruct (bisect_test tolerance s) eqn:Ht.
  - destruct (i + 1 >=? max_iters)%Z eqn:Hi.
    + right. split; [reflexivity|].
      intros j [->|Hj]; [exact Ht|].
      assert (j = 0%nat) as -> by lia. exact Ht.
    + destruct (IH (i + 1)%Z (bisect_body a b x p s)) as
        [(n & He & Hn & Hlt & Hb)|(He & Hall)]; [lia| |].
      * left. exists (S n). rewrite He, <- nth_bracket_shift.
        repeat split; auto.
        -- intros [|j] Hj; [exact Ht|].
           rewrite <- nth_bracket_shift. apply Hlt. lia.
        -- right. lia.
      * right. split; [exact He|].
        intros [|j] Hj; [exact Ht|].
        rewrite <- nth_bracket_shift. apply Hall.
        destruct Hj as [Hj|Hj]; [discriminate|]. right. lia.
  - left. exists 0%nat. repeat split; auto. intros j Hj. lia.
Qed.

(** Read forwards: the tests decide the outcome. *)
Lemma expand_ok (lgla : A) (fuel n : nat) (i : Z) (lb : A) :
  (Z.to_nat (max_iters - i) < fuel)%nat ->
  (forall j, (j < n)%nat -> expand_test a b x p lgla (nth_lb feeler_step lb j) = true) ->
  expand_test a b x p lgla (nth_lb feeler_step lb n) = false ->
  n = 0%nat \/ (i + Z.of_nat n < max_iters)%Z ->
  expand a b x p feeler_step max_iters fuel lgla i lb
  = Ok (nth_lb feeler_step lb n).
Proof.
  intros Hfuel Hall Hn Hb.
  destruct (expand_cases lgla i lb Hfuel)
    as [(n' & He & Hn' & Hlt & _)|(_ & Hraise)].
  - destruct (Nat.lt_trichotomy n n') as [H|[<-|H]]; [|exact He|].
    + rewrite (Hlt n H) in Hn. discriminate.
    + rewrite (Hall n' H) in Hn'. discriminate.
  - rewrite (Hraise n) in Hn; [discriminate|]. destruct Hb; auto.
Qed.

Lemma expand_raise (lgla : A) (fuel : nat) (i : Z) (lb : A) :
  (Z.to_nat (max_iters - i) < fuel)%nat ->
  (forall j, j = 0%nat \/ (i + Z.of_nat j < max_iters)%Z ->
             expand_test a b x p lgla (nth_lb feeler_step lb j) = true) ->
  expand a b x p feeler_step max_iters fuel lgla i lb = Raise bounds_timeout.
Proof.
  intros Hfuel Hall.
  destruct (expand_cases lgla i lb Hfuel)
    as [(n & _ & Hn & _ & Hb)|(He & _)]; [|exact He].
  rewrite Hall in Hn; [discriminate|]. destruct Hb; auto.
Qed.

Lemma bisect_ok (fuel n : nat) (i : Z) (s : bracket A) :
  (Z.to_nat (max_iters - i) < fuel)%nat ->
  (forall j, (j < n)%nat -> bisect_test tolerance (nth_bracket a b x p s j) = true) ->
  bisect_test tolerance (nth_bracket a b x p s n) = false ->
  n = 0%nat \/ (i + Z.of_nat n < max_iters)%Z ->
  bisect a b x p tolerance max_iters fuel i s = Ok (nth_bracket a b x p s n).
Proof.
  intros Hfuel Hall Hn Hb.
  destruct (bisect_cases i s Hfuel)
    as [(n' & He & Hn' & Hlt & _)|(_ & Hraise)].
  - destruct (Nat.lt_trichotomy n n') as [H|[<-|H]]; [|exact He|].
    + rewrite (Hlt n H) in Hn. discriminate.
    + rewrite (Hall n' H) in Hn'. discriminate.
  - rewrite (Hraise n) in Hn; [discriminate|]. destruct Hb; auto.
Qed.


Lemma loop_fuel_enough : (Z.to_nat (max_iters - 0) < loop_fuel max_iters)%nat.
Proof. unfold loop_fuel. rewrite Z.sub_0_r. lia. Qed.

Lemma nth_lb_zero (lb : A) : nth_lb feeler_step lb 0 = lb.
Proof. reflexivity. Qed.

Lemma nth_bracket_zero (s : bracket A) : nth_bracket a b x p s 0 = s.
Proof. reflexivity. Qed.

Lemma nth_bracket_succ (s : bracket A) (k : nat) :
  nth_bracket a b x p s (S k) = bisect_body a b x p (nth_bracket a b x p s k).
Proof. reflexivity. Qed.

(** A property of brackets kept by every round that the loop runs holds of
    every bracket the loop reaches. *)
Lemma nth_bracket_invariant (P : bracket A -> Prop) (s : bracket A) :
  P s ->
  (forall t, P t -> bisect_test tolerance t = true -> P (bisect_body a b x p t)) ->
  forall n,
    (forall j, (j < n)%nat -> bisect_test tolerance (nth_bracket a b x p s j) = true) ->
    P (nth_bracket a b x p s n).
Proof.
  intros H0 Hstep n. induction n as [|n IH]; intros Hall; [exact H0|].
  rewrite nth_bracket_succ. apply Hstep.
  - apply IH. intros j Hj. apply Hall. lia.
  - apply Hall. lia.
Qed.

Variable feeler_init : A.

(** What a normal return of [my_line_search] says about the run: the first
    loop left after [n] rounds, the second after [m], and the point returned
    is the last midpoint [l] tried. *)
Lemma my_line_search_ok_inv (x' : np.matrix A) :
  my_line_search a b x p feeler_init feeler_step tolerance max_iters = Ok x' ->
  let lgla := line_grad a b x p in
  exists (n m : nat) (l : A),
    let lb := nth_lb feeler_step (- lgla * feeler_init) n in
    let s0 := Bracket (py_min (ofZ 0) lb) (py_max (ofZ 0) lb) None in
    let s := nth_bracket a b x p s0 m in
    expand_test a b x p lgla lb = false
    /\ bisect_test tolerance s = false
    /\ (forall j, (j < m)%nat ->
                  bisect_test tolerance (nth_bracket a b x p s0 j) = true)
    /\ lnew s = Some l
    /\ x' = at_step x p l.
Proof.
  intros H lgla. unfold my_line_search in H.
  destruct (expand_cases lgla 0 (- lgla * feeler_init) loop_fuel_enough)
    as [(n & He & Hn & _ & _)|(He & _)];
    fold lgla in H; rewrite He in H; cbn [bind] in H; [|discriminate].
  match type of H with
  | context [bisect _ _ _ _ _ _ _ _ ?s0] =>
      destruct (bisect_cases 0 s0 loop_fuel_enough)
        as [(m & Hb & Hm & Hlt & _)|(Hb & _)]
  end; rewrite Hb in H; cbn [bind] in H; [|discriminate].
  destruct (lnew _) as [l|] eqn:Hl in H; [|discriminate].
  exists n, m, l. cbn zeta. injection H as <-. auto.
Qed.

(** Neither loop runs out of the model's fuel. *)
Lemma my_line_search_total :
  my_line_search a b x p feeler_init feeler_step tolerance max_iters <> OutOfFuel.
Proof.
  unfold my_line_search.
  destruct (expand_cases (line_grad a b x p) 0
              (- line_grad a b x p * feeler_init) loop_fuel_enough)
    as [(n & He & _)|(He & _)]; rewrite He; cbn [bind]; [|discriminate].
  match goal with
  | |- context [bisect _ _ _ _ _ _ _ _ ?s0] =>
      destruct (bisect_cases 0 s0 loop_fuel_enough) as [(m & Hb & _)|(Hb & _)]
  end; rewrite Hb; cbn [bind]; [|discriminate].
  destruct (lnew _); discriminate.
Qed.
End Loops.

(** ** The driver, over any arithmetic *)

Section Driver.
Context {A : Type} {ar : Arith A}.
Variables a b : A.

Lemma combine_snoc {X Y : Type} (xs : list X) (ys : list Y) (u : X) (v : Y) :
  length xs = length ys ->
  combine (xs ++ [u]) (ys ++ [v]) = combine xs ys ++ [(u, v)].
Proof.
  revert ys. induction xs as [|x' xs IH]; intros [|y' ys] Hlen;
    try discriminate; [reflexivity|].
  cbn. f_equal. apply IH. now injection Hlen.
Qed.

Lemma get_next_x_total (this_x this_p : np.matrix A) :
  get_next_x a b this_x this_p <> OutOfFuel.
Proof. apply my_line_search_total. Qed.

Lemma driver_init_inv (x0 : np.matrix A) : driver_inv a b x0 (driver_init a b x0).
Proof.
  unfold driver_inv, driver_init, trajectory. cbn.
  repeat (split; [solve [reflexivity | lia]|]).
  intros k xk pk xk1 pk1 _ H. destruct k; discriminate.
Qed.

Lemma driver_body_inv (x0 : np.matrix A) (s s' : driver_state A) :
  driver_inv a b x0 s ->
  driver_body a b s = Ok s' ->
  driver_inv a b x0 s' /\ i s' = (i s + 1)%Z.
Proof.
  intros (Hi & Hx & Hp & H0 & Hlast & Hrec) Hbody.
  unfold driver_body in Hbody.
  destruct (get_next_x a b (this_x s) (this_p s)) as [nx| |] eqn:Hnx;
    try discriminate.
  cbn [bind] in Hbody. injection Hbody as <-. split; [|reflexivity].
  assert (Hlen : length (trajectory s) = Z.to_nat (i s))
    by (unfold trajectory; rewrite length_combine; lia).
  unfold driver_inv, trajectory in *. cbn [i x_ts p_ts this_x this_p].
  rewrite combine_snoc by congruence.
  rewrite !length_app. cbn [length].
  repeat (split; [lia|]).
  split; [|split].
  - rewrite nth_error_app1 by lia. exact H0.
  - rewrite nth_error_app2 by lia.
    replace (Z.to_nat (i s + 1) - 1 - length (combine (x_ts s) (p_ts s)))%nat
      with 0%nat by lia.
    reflexivity.
  - intros k xk pk xk1 pk1 Hk Hk1.
    destruct (Nat.lt_ge_cases (S k) (Z.to_nat (i s))) as [Hlt|Hge].
    + rewrite nth_error_app1 in Hk, Hk1 by lia. eapply Hrec; eauto.
    + assert (S k = Z.to_nat (i s)).
      { assert (nth_error (combine (x_ts s) (p_ts s) ++
                           [(nx, get_next_p a b (this_x s) nx (this_p s))]) (S k)
                <> None) as Hsome%nth_error_Some by congruence.
        rewrite length_app in Hsome. cbn [length] in Hsome. lia. }
      rewrite nth_error_app1 in Hk by lia.
      rewrite nth_error_app2 in Hk1 by lia.
      replace (S k - length (combine (x_ts s) (p_ts s)))%nat with 0%nat in Hk1
        by lia.
      replace k with (Z.to_nat (i s) - 1)%nat in Hk by lia.
      rewrite Hlast in Hk. injection Hk as <- <-.
      cbn [nth_error] in Hk1. injection Hk1 as <- <-. auto.
Qed.

Lemma driver_loop_inv (x0 : np.matrix A) (n_iters : Z) (fuel : nat) :
  forall s s' : driver_state A,
    driver_inv a b x0 s ->
    (i s <= n_iters)%Z ->
    driver_loop a b n_iters fuel s = Ok s' ->
    driver_inv a b x0 s' /\ i s' = n_iters.
Proof.
  induction fuel as [|fuel IH]; intros s s' Hinv Hle Hrun; [discriminate|].
  cbn [driver_loop] in Hrun.
  destruct (i s <? n_iters)%Z eqn:Hlt.
  - destruct (driver_body a b s) as [s1| |] eqn:Hbody; try discriminate.
    cbn [bind] in Hrun.
    destruct (driver_body_inv Hinv Hbody) as [Hinv1 Hi1].
    apply (IH s1 s'); auto. lia.
  - injection Hrun as <-. split; [exact Hinv|lia].
Qed.

(** The loop never runs out of the model's fuel. *)
Lemma driver_loop_total (n_iters : Z) (fuel : nat) :
  forall s : driver_state A,
    (Z.to_nat (n_iters - i s) < fuel)%nat ->
    driver_loop a b n_iters fuel s <> OutOfFuel.
Proof.
  induction fuel as [|fuel IH]; intros s Hfuel; [lia|].
  cbn [driver_loop].
  destruct (i s <? n_iters)%Z eqn:Hlt; [|discriminate].
  unfold driver_body.
  destruct (get_next_x a b (this_x s) (this_p s)) as [nx|e|] eqn:Hnx;
    cbn [bind].
  - apply IH. cbn [i]. lia.
  - discriminate.
  - now apply get_next_x_total in Hnx.
Qed.

Lemma driver_total (x0 : np.matrix A) (n_iters : Z) :
  driver a b x0 n_iters <> OutOfFuel.
Proof. apply driver_loop_total. cbn [driver_init i]. lia. Qed.
End Driver.

(** ** Exact arithmetic: comparisons and arrays over the reals *)

Lemma Rgtb_true (u v : R) : Rgtb u v = true <-> u > v.
Proof. unfold Rgtb. destruct (Rgt_dec u v); split; intros; auto; discriminate. Qed.

Lemma Rgtb_false (u v : R) : Rgtb u v = false <-> u <= v.
Proof.
  unfold Rgtb. destruct (Rgt_dec u v); split; intros; auto; try discriminate; lra.
Qed.

Lemma Rltb_true (u v : R) : Rltb u v = true <-> u < v.
Proof. unfold Rltb. destruct (Rlt_dec u v); split; intros; auto; discriminate. Qed.

Lemma Rltb_false (u v : R) : Rltb u v = false <-> v <= u.
Proof.
  unfold Rltb. destruct (Rlt_dec u v); split; intros; auto; try discriminate; lra.
Qed.

Lemma Reqb_true (u v : R) : Reqb u v = true <-> u = v.
Proof. unfold Reqb. destruct (Req_dec_T u v); split; intros; auto; discriminate. Qed.

Lemma Reqb_false (u v : R) : Reqb u v = false <-> u <> v.
Proof.
  unfold Reqb. destruct (Req_dec_T u v); split; intros; auto; try discriminate.
  contradiction.
Qed.

Lemma py_max_R (u v : R) : py_max u v = Rmax u v.
Proof.
  unfold py_max. to_R. destruct (Rgtb v u) eqn:H.
  - apply Rgtb_true in H. rewrite Rmax_right; lra.
  - apply Rgtb_false in H. rewrite Rmax_left; lra.
Qed.

Lemma py_min_R (u v : R) : py_min u v = Rmin u v.
Proof.
  unfold py_min. to_R. destruct (Rltb v u) eqn:H.
  - apply Rltb_true in H. rewrite Rmin_right; lra.
  - apply Rltb_false in H. rewrite Rmin_left; lra.
Qed.

Section RealArrays.
Variables a b : R.

(** [f] at a point is the objective of the specification. *)
Lemma f_col3 (x y z : R) :
  f a b (np.col3 x y z) = [Spec.objective a b x y z].
Proof. reflexivity. Qed.

(** [grad] at a point is the vector of forward differences: component [i]
    compares the objective at the point with coordinate [i] moved by
    [delta] to the objective at the point itself. *)
Lemma grad_col3 (x y z delta : R) :
  grad a b (np.col3 x y z) delta = Spec.forward_difference a b x y z delta.
Proof.
  np_eval. unfold Rdiv.
  f_equal; [|f_equal; [|f_equal]]; f_equal; f_equal; ring.
Qed.

Lemma at_step_col3 (x y z p1 p2 p3 l : R) :
  at_step (np.col3 x y z) (np.col3 p1 p2 p3) l
  = np.col3 (x + l * p1) (y + l * p2) (z + l * p3).
Proof. reflexivity. Qed.
End RealArrays.

(** ** The gradient estimator *)

Lemma grad_x0_value :
  grad 2 3 x0 lit_1e_7
  = np.col3 (8 + 12 / 10^7 + 8 / 10^14 + 2 / 10^21)
            (2 + 1 / 10^7)
            (12 + 18 / 10^7 + 12 / 10^14 + 3 / 10^21).
Proof.
  unfold x0. rewrite grad_col3. np_eval.
  f_equal; [|f_equal; [|f_equal]]; f_equal; field.
Qed.

Lemma grad_x0_nonzero : grad 2 3 x0 lit_1e_7 <> np.col3 0 0 0.
Proof.
  rewrite grad_x0_value. unfold np.col3. intros H.
  injection H as _ H _. lra.
Qed.

(** C5.  With a = 2 and b = 3, [grad] at x0 = (2,3,2) with the default step
    1e-7 is a 3-vector whose component [i] is (f(x0 + delta e_i) - f(x0)) / delta,
    coordinate [i] alone being moved; its value is
    (8 + 12 d + 8 d^2 + 2 d^3, 2 + d, 12 + 18 d + 12 d^2 + 3 d^3) for d = 1e-7,
    and every component is within 2e-6 of the analytical gradient
    (4a(x-1)^3, 2(y-2), 4b(z-1)^3) = (8, 2, 12). *)
Theorem grad_at_start_point :
  let delta := 1 / 10^7 in
  exists g1 g2 g3 : R,
    grad 2 3 x0 lit_1e_7 = np.col3 g1 g2 g3
    /\ [g1] = np.vmap (fun e => e / delta)
                (np.vzip Rminus (f 2 3 (np.col3 (2 + delta) 3 2)) (f 2 3 x0))
    /\ [g2] = np.vmap (fun e => e / delta)
                (np.vzip Rminus (f 2 3 (np.col3 2 (3 + delta) 2)) (f 2 3 x0))
    /\ [g3] = np.vmap (fun e => e / delta)
                (np.vzip Rminus (f 2 3 (np.col3 2 3 (2 + delta))) (f 2 3 x0))
    /\ g1 = 8 + 12 * delta + 8 * delta ^ 2 + 2 * delta ^ 3
    /\ g2 = 2 + delta
    /\ g3 = 12 + 18 * delta + 12 * delta ^ 2 + 3 * delta ^ 3
    /\ Spec.analytic_grad 2 3 2 3 2 = np.col3 8 2 12
    /\ Rabs (g1 - 8) < 2 / 10^6
    /\ Rabs (g2 - 2) < 2 / 10^6
    /\ Rabs (g3 - 12) < 2 / 10^6.
Proof.
  intros delta. subst delta.
  eexists _, _, _. split; [exact grad_x0_value|].
  repeat split.
  - unfold x0. rewrite !f_col3. cbn. unfold Spec.objective. f_equal. field.
  - unfold x0. rewrite !f_col3. cbn. unfold Spec.objective. f_equal. field.
  - unfold x0. rewrite !f_col3. cbn. unfold Spec.objective. f_equal. field.
  - field.
  - field.
  - np_eval. f_equal; [|f_equal; [|f_equal]]; f_equal; ring.
  - apply Rabs_def1; lra.
  - apply Rabs_def1; lra.
  - apply Rabs_def1; lra.
Qed.

(** C10.  In exact arithmetic and for every step delta other than 0, the
    second component of [grad pt delta] is exactly 2 (pt_2 - 2) + delta: the
    forward difference of the quadratic term is off by +delta.  The first
    and third components are the forward differences of their own quartic
    terms and depend on no other coordinate. *)
Theorem grad_quadratic_bias (a b x y z delta : R) :
  delta <> 0 ->
  grad a b (np.col3 x y z) delta
  = np.col3 (a * ((x + delta - 1) ^ 4 - (x - 1) ^ 4) / delta)
            (2 * (y - 2) + delta)
            (b * ((z + delta - 1) ^ 4 - (z - 1) ^ 4) / delta).
Proof.
  intros Hd. rewrite grad_col3. np_eval.
  f_equal; [|f_equal; [|f_equal]]; f_equal; field; exact Hd.
Qed.

Lemma grad_quadratic_bias_witness :
  (1 / 10 <> 0)
  /\ grad 2 3 (np.col3 2 3 2) (1 / 10)
     = np.col3 (2 * ((2 + 1 / 10 - 1) ^ 4 - (2 - 1) ^ 4) / (1 / 10))
               (2 * (3 - 2) + 1 / 10)
               (3 * ((2 + 1 / 10 - 1) ^ 4 - (2 - 1) ^ 4) / (1 / 10)).
Proof.
  assert (H : 1 / 10 <> 0) by lra.
  split; [exact H|]. exact (@grad_quadratic_bias 2 3 2 3 2 (1 / 10) H).
Defined.

(** ** The conjugate direction update *)

Lemma polak_ribiere_col3 (go1 go2 go3 gn1 gn2 gn3 p1 p2 p3 : R) :
  let g_new := np.col3 gn1 gn2 gn3 in
  let g_old := np.col3 go1 go2 go3 in
  let p_old := np.col3 p1 p2 p3 in
  (g_new .+ (np.T (g_new .- g_old) .@ g_new ./ (np.T g_old .@ g_old)) .* p_old)%num
  = Spec.polak_ribiere g_new g_old p_old.
Proof.
  intros. subst g_new g_old p_old. np_eval.
  rewrite !Rplus_0_r, <- !Rplus_assoc. reflexivity.
Qed.

(** C2.  For a previous point whose estimated gradient is not the zero
    vector, a new point and a previous direction, [get_next_p] returns
    grad(x_new) + beta p_old with
    beta = ((grad(x_new) - grad(x_old))^T grad(x_new)) / (grad(x_old)^T grad(x_old)),
    the gradients being those of [grad] with its default step. *)
Theorem get_next_p_polak_ribiere
    (a b xo yo zo xn yn zn p1 p2 p3 : R) :
  let x_old := np.col3 xo yo zo in
  let x_new := np.col3 xn yn zn in
  let p_old := np.col3 p1 p2 p3 in
  grad a b x_old lit_1e_7 <> np.col3 0 0 0 ->
  get_next_p a b x_old x_new p_old
  = Spec.polak_ribiere (grad a b x_new lit_1e_7) (grad a b x_old lit_1e_7) p_old.
Proof.
  intros x_old x_new p_old _. subst x_old x_new p_old.
  unfold get_next_p. rewrite !grad_col3. apply polak_ribiere_col3.
Qed.

Lemma get_next_p_polak_ribiere_witness :
  grad 2 3 x0 lit_1e_7 <> np.col3 0 0 0
  /\ get_next_p 2 3 x0 (np.col3 1 2 1) (np.col3 8 2 12)
     = Spec.polak_ribiere (grad 2 3 (np.col3 1 2 1) lit_1e_7)
                          (grad 2 3 x0 lit_1e_7) (np.col3 8 2 12).
Proof.
  split; [exact grad_x0_nonzero|].
  exact (@get_next_p_polak_ribiere 2 3 2 3 2 1 2 1 8 2 12 grad_x0_nonzero).
Defined.

(** ** The line search in exact arithmetic *)

Section RealLineSearch.
Variables a b : R.
Variables x1 x2 x3 p1 p2 p3 : R.
Variables feeler_init feeler_step tolerance : R.
Variable max_iters : Z.
Local Notation "'xx'" := (np.col3 x1 x2 x3).
Local Notation "'pp'" := (np.col3 p1 p2 p3).

Lemma phi_0 : phi a b xx pp 0 = line_grad a b xx pp.
Proof.
  unfold phi. rewrite at_step_col3.
  replace (x1 + 0 * p1) with x1 by ring.
  replace (x2 + 0 * p2) with x2 by ring.
  replace (x3 + 0 * p3) with x3 by ring.
  reflexivity.
Qed.

Lemma expand_test_false (lgla lb : R) :
  expand_test a b xx pp lgla lb = false <-> lgla * phi a b xx pp lb <= 0.
Proof. unfold expand_test. to_R. apply Rgtb_false. Qed.

Lemma expand_test_true (lgla lb : R) :
  expand_test a b xx pp lgla lb = true <-> lgla * phi a b xx pp lb > 0.
Proof. unfold expand_test. to_R. apply Rgtb_true. Qed.

Lemma bisect_test_false (s : bracket R) :
  bisect_test tolerance s = false <-> lmax s - lmin s <= tolerance.
Proof. unfold bisect_test. to_R. apply Rgtb_false. Qed.

Lemma bisect_test_true (s : bracket R) :
  bisect_test tolerance s = true <-> lmax s - lmin s > tolerance.
Proof. unfold bisect_test. to_R. apply Rgtb_true. Qed.

(** After [k] rounds of the first loop [lb] has been multiplied by
    [feeler_step] to the [k]. *)
Lemma nth_lb_pow (lb : R) (k : nat) :
  nth_lb feeler_step lb k = lb * feeler_step ^ k.
Proof.
  induction k as [|k IH].
  - unfold nth_lb. cbn. ring.
  - change (nth_lb feeler_step lb (S k))
      with (num_mul (nth_lb feeler_step lb k) feeler_step).
    rewrite IH. to_R. cbn [pow]. ring.
Qed.

(** One round of the second loop, by the sign of the derivative at the
    midpoint. *)
Lemma bisect_body_pos (s : bracket R) :
  let mid := (lmax s + lmin s) / 2 in
  phi a b xx pp mid > 0 ->
  bisect_body a b xx pp s = Bracket (lmin s) mid (Some mid).
Proof.
  intros mid H. unfold bisect_body.
  change (line_grad a b (xx .+ (num_div (num_add (lmax s) (lmin s)) (ofZ 2)) *: pp)%num pp)
    with (phi a b xx pp mid).
  to_R. apply Rgtb_true in H. now rewrite H.
Qed.

Lemma bisect_body_nonpos (s : bracket R) :
  let mid := (lmax s + lmin s) / 2 in
  phi a b xx pp mid <= 0 ->
  bisect_body a b xx pp s = Bracket mid (lmax s) (Some mid).
Proof.
  intros mid H. unfold bisect_body.
  change (line_grad a b (xx .+ (num_div (num_add (lmax s) (lmin s)) (ofZ 2)) *: pp)%num pp)
    with (phi a b xx pp mid).
  to_R. apply Rgtb_false in H. now rewrite H.
Qed.


Lemma sign_bracket_body (L U : R) (s : bracket R) :
  0 <= tolerance ->
  sign_bracket a b xx pp L U s ->
  bisect_test tolerance s = true ->
  sign_bracket a b xx pp L U (bisect_body a b xx pp s).
Proof.
  intros Htol (HL & Hord & HU & Hlo & Hhi & _) Ht%bisect_test_true.
  destruct (Rle_or_lt (phi a b xx pp ((lmax s + lmin s) / 2)) 0) as [H|H].
  - rewrite (bisect_body_nonpos s H). unfold sign_bracket. cbn [lmin lmax lnew].
    repeat (split; [lra|]). intros l [= <-]. split; [auto|lra].
  - rewrite (bisect_body_pos s H). unfold sign_bracket. cbn [lmin lmax lnew].
    repeat (split; [lra|]). intros l [= <-]. split; [auto|lra].
Qed.

(** The bracket handed to the second loop: its ends are 0 and the last
    [lb], in order, and the derivative changes sign between them. *)
Lemma initial_bracket_sign (n : nat) :
  let lgla := line_grad a b xx pp in
  let lb := nth_lb feeler_step (- lgla * feeler_init) n in
  0 < feeler_init -> 0 < feeler_step ->
  expand_test a b xx pp lgla lb = false ->
  sign_bracket a b xx pp (Rmin 0 lb) (Rmax 0 lb)
    (Bracket (py_min 0 lb) (py_max 0 lb) None).
Proof.
  intros lgla lb Hfi Hfs Ht%expand_test_false.
  assert (Hlb : lb = - lgla * feeler_init * feeler_step ^ n)
    by (unfold lb; now rewrite nth_lb_pow).
  assert (HF : 0 < feeler_step ^ n) by now apply pow_lt.
  assert (H0 : phi a b xx pp 0 = lgla) by apply phi_0.
  rewrite py_min_R, py_max_R. unfold sign_bracket. cbn [lmin lmax lnew].
  destruct (Rtotal_order lgla 0) as [Hneg|[Hzero|Hpos]].
  - assert (0 < lb) by (rewrite Hlb; apply Rmult_lt_0_compat; nra).
    rewrite Rmin_left, Rmax_right by lra. rewrite H0.
    repeat (split; [nra|]). discriminate.
  - assert (lb = 0) by (rewrite Hlb, Hzero; ring).
    rewrite Rmin_left, Rmax_right by lra. rewrite H0.
    replace lb with 0 in * by lra. rewrite H0.
    repeat (split; [lra|]). discriminate.
  - assert (lb < 0).
    { rewrite Hlb. replace (- lgla * feeler_init * feeler_step ^ n)
        with (- (lgla * feeler_init * feeler_step ^ n)) by ring.
      apply Ropp_lt_gt_0_contravar. repeat apply Rmult_gt_0_compat; lra. }
    rewrite Rmin_right, Rmax_left by lra. rewrite H0.
    repeat (split; [nra|]). discriminate.
Qed.

(** A normal return of the line search, in exact arithmetic: the point
    returned is [x + l p] for the last midpoint [l]; [l] is an end of the
    final bracket, which is ordered, no wider than [tolerance], and has a
    derivative that is not positive at its lower end and not negative at its
    upper end; and [l] lies strictly between 0 and the last [lb]. *)
Lemma line_search_normal_return (x' : np.matrix R) :
  0 < feeler_init -> 0 < feeler_step -> 0 <= tolerance ->
  my_line_search a b xx pp feeler_init feeler_step tolerance max_iters = Ok x' ->
  exists (n : nat) (s : bracket R) (l : R),
    let lb := - line_grad a b xx pp * feeler_init * feeler_step ^ n in
    sign_bracket a b xx pp (Rmin 0 lb) (Rmax 0 lb) s
    /\ lmax s - lmin s <= tolerance
    /\ lnew s = Some l
    /\ x' = at_step xx pp l.
Proof.
  intros Hfi Hfs Htol Hok.
  destruct (my_line_search_ok_inv _ _ _ _ _ _ _ _ Hok)
    as (n & m & l & Hexp & Hexit & Hruns & Hl & Hx').
  exists n. eexists. exists l. cbn zeta.
  rewrite <- (nth_lb_pow (- line_grad a b xx pp * feeler_init) n).
  split; [|split; [|split; [exact Hl|exact Hx']]].
  - eapply nth_bracket_invariant; [| |exact Hruns].
    + now apply initial_bracket_sign.
    + intros t Ht Htest. now apply sign_bracket_body.
  - now apply bisect_test_false.
Qed.
End RealLineSearch.

(** ** Directional derivatives in exact arithmetic *)

Lemma norm_col3 (p1 p2 p3 : R) :
  np.norm (np.col3 p1 p2 p3) = sqrt (p1 ^ 2 + p2 ^ 2 + p3 ^ 2).
Proof.
  cbv [np.norm np.flatten np.sum np.col3 concat app map fold_right
       num_sqrt num_add num_pow ofZ R_arith].
  f_equal. ring.
Qed.

Lemma normalize_zero : normalize p_zero = p_zero.
Proof.
  unfold normalize, p_zero. rewrite norm_col3.
  replace (0 ^ 2 + 0 ^ 2 + 0 ^ 2) with 0 by ring. rewrite sqrt_0.
  to_R. now rewrite (proj2 (Reqb_true 0 0) eq_refl).
Qed.

Lemma normalize_along_y (P : R) :
  0 < P -> normalize (np.col3 0 P 0) = np.col3 0 1 0.
Proof.
  intros HP. unfold normalize. rewrite norm_col3.
  replace (0 ^ 2 + P ^ 2 + 0 ^ 2) with (P * P) by ring.
  rewrite sqrt_square by lra.
  to_R. rewrite (proj2 (Reqb_false P 0)) by lra.
  cbv [np.mmap np.col3 map].
  f_equal; [|f_equal; [|f_equal]]; f_equal; field; lra.
Qed.

(** [line_grad] is the inner product of the estimated gradient with the
    normalized direction. *)
Lemma line_grad_col3 (a b x y z : R) (p : np.matrix R) (q1 q2 q3 : R) :
  normalize p = np.col3 q1 q2 q3 ->
  line_grad a b (np.col3 x y z) p
  = Spec.inner (grad a b (np.col3 x y z) lit_1e_7) (np.col3 q1 q2 q3).
Proof.
  intros Hq. unfold line_grad. rewrite Hq, grad_col3. np_eval. ring.
Qed.

Lemma line_grad_zero_direction (a b x y z : R) :
  line_grad a b (np.col3 x y z) p_zero = 0.
Proof.
  rewrite (line_grad_col3 a b x y z p_zero normalize_zero).
  rewrite grad_col3. np_eval. ring.
Qed.

Lemma line_grad_along_y (a b x y z P : R) :
  0 < P ->
  line_grad a b (np.col3 x y z) (np.col3 0 P 0) = 2 * (y - 2) + 1 / 10^7.
Proof.
  intros HP.
  rewrite (line_grad_col3 a b x y z (np.col3 0 P 0) (normalize_along_y HP)).
  rewrite grad_col3. np_eval. field.
Qed.

Lemma phi_along_y (a b x y z P l : R) :
  0 < P ->
  phi a b (np.col3 x y z) (np.col3 0 P 0) l = 2 * (y + l * P - 2) + 1 / 10^7.
Proof.
  intros HP. unfold phi. rewrite at_step_col3. now apply line_grad_along_y.
Qed.

(** ** A run of the line search

    From [x_flat] along [p_long], in the default configuration: the
    derivative at the start is 1.5e-4, the first [lb] is -1.5e-7 and already
    closes the bracket, and one bisection brings the bracket's width to
    0.75e-7.  The point returned is 75 away from the start. *)

Lemma line_grad_x_flat : line_grad 2 3 x_flat p_long = 3 / 20000.
Proof. unfold x_flat, p_long. rewrite line_grad_along_y by lra. lra. Qed.

Lemma phi_x_flat (l : R) :
  phi 2 3 x_flat p_long l = 3 / 20000 + 2 * 10^9 * l.
Proof. unfold x_flat, p_long. rewrite phi_along_y by lra. lra. Qed.

Lemma line_search_example :
  my_line_search 2 3 x_flat p_long lit_1e_3 2 lit_1e_7 1000
  = Ok (np.col3 1 (200007495 / 100000000 - 75) 1).
Proof.
  unfold my_line_search. rewrite line_grad_x_flat.
  assert (Hlb : num_mul (num_opp (3 / 20000)) lit_1e_3 = - 3 / 20000000)
    by (unfold lit_1e_3; to_R; lra).
  rewrite Hlb.
  rewrite (expand_ok 2 3 x_flat p_long 2 (3 / 20000) 0 (- 3 / 20000000) (n := 0));
    [|apply loop_fuel_enough|intros j Hj; lia| |now left].
  2:{ rewrite nth_lb_zero. unfold x_flat, p_long.
      apply expand_test_false. fold x_flat p_long. rewrite phi_x_flat. lra. }
  cbn [bind]. rewrite nth_lb_zero.
  rewrite py_min_R, py_max_R. to_R.
  rewrite Rmin_right, Rmax_left by lra.
  set (s0 := Bracket (-3 / 20000000) 0 None).
  assert (H1 : bisect_body 2 3 x_flat p_long s0
               = Bracket (- 3 / 40000000) 0 (Some (- 3 / 40000000))).
  { unfold x_flat, p_long.
    rewrite bisect_body_nonpos; fold x_flat p_long; cbn [lmin lmax s0].
    - replace ((0 + -3 / 20000000) / 2) with (-3 / 40000000) by lra.
      reflexivity.
    - rewrite phi_x_flat. lra. }
  rewrite (bisect_ok 2 3 x_flat p_long (1 / 10000000) 0 s0 (n := 1));
    [|apply loop_fuel_enough| | |right; lia].
  - rewrite nth_bracket_succ, nth_bracket_zero, H1. cbn [bind lnew].
    f_equal. unfold x_flat, p_long.
    change (np.broadcast Rplus ?u (np.mmap (fun e => ?l * e) ?v))
      with (at_step u v l).
    rewrite at_step_col3. f_equal; lra.
  - intros j Hj. assert (j = 0%nat) as -> by lia.
    rewrite nth_bracket_zero.
    apply bisect_test_true. cbn [lmin lmax s0]. lra.
  - rewrite nth_bracket_succ, nth_bracket_zero, H1.
    apply bisect_test_false. cbn [lmin lmax]. lra.
Qed.

(** ** What a normal return guarantees *)

(** C1, amended.  In the default configuration, when [my_line_search x p]
    returns normally the point returned is [x + l p], where [l] is an end of
    a bracket [lmin, lmax] that is ordered, no wider than the tolerance 1e-7,
    and across which the directional derivative changes sign: it is not
    positive at [lmin] and not negative at [lmax].  The tolerance bounds the
    distance, in the step length, from [l] to a change of sign; it does not
    bound the derivative at the point returned. *)
Theorem line_search_postcondition
    (a b x1 x2 x3 p1 p2 p3 : R) (x' : np.matrix R) :
  let x := np.col3 x1 x2 x3 in
  let p := np.col3 p1 p2 p3 in
  my_line_search a b x p lit_1e_3 2 lit_1e_7 1000 = Ok x' ->
  exists (l l_min l_max : R),
    x' = (x .+ l *: p)%num
    /\ (l = l_min \/ l = l_max)
    /\ l_min <= l_max
    /\ l_max - l_min <= 1 / 10^7
    /\ line_grad a b (x .+ l_min *: p)%num p <= 0
    /\ 0 <= line_grad a b (x .+ l_max *: p)%num p.
Proof.
  intros x p Hok. subst x p.
  assert (Hfi : 0 < @lit_1e_3 R _) by (unfold lit_1e_3; to_R; lra).
  assert (Htol : 0 <= @lit_1e_7 R _) by (unfold lit_1e_7; to_R; lra).
  destruct (line_search_normal_return a b x1 x2 x3 p1 p2 p3 1000
              Hfi Rlt_0_2 Htol Hok)
    as (n & s & l & (_ & Hord & _ & Hlo & Hhi & Hnew) & Hw & Hl & Hx').
  destruct (Hnew l Hl) as [Hend _].
  exists l, (lmin s), (lmax s).
  repeat split; auto.
  unfold lit_1e_7 in Hw. to_R. lra.
Qed.

(** At [x_flat] along [p_long] the search returns normally, 75 away from the
    start, where the derivative along [p_long] is 1.5e-4 - 150. *)
Lemma line_search_derivative_not_small :
  p_long <> p_zero
  /\ my_line_search 2 3 x_flat p_long lit_1e_3 2 lit_1e_7 1000
     = Ok (np.col3 1 (200007495 / 100000000 - 75) 1)
  /\ line_grad 2 3 (np.col3 1 (200007495 / 100000000 - 75) 1) p_long
     = 3 / 20000 - 150
  /\ ~ Rabs (line_grad 2 3 (np.col3 1 (200007495 / 100000000 - 75) 1) p_long)
       < 1 / 10^6.
Proof.
  assert (Hg : line_grad 2 3 (np.col3 1 (200007495 / 100000000 - 75) 1) p_long
               = 3 / 20000 - 150).
  { unfold p_long. rewrite line_grad_along_y by lra. lra. }
  split; [|split; [exact line_search_example|split; [exact Hg|]]].
  - unfold p_long, p_zero, np.col3. intros H. injection H as H. lra.
  - rewrite Hg, Rabs_left by lra. lra.
Qed.

Lemma line_search_postcondition_witness :
  exists (l l_min l_max : R),
    np.col3 1 (200007495 / 100000000 - 75) 1 = (x_flat .+ l *: p_long)%num
    /\ (l = l_min \/ l = l_max)
    /\ l_min <= l_max
    /\ l_max - l_min <= 1 / 10^7
    /\ line_grad 2 3 (x_flat .+ l_min *: p_long)%num p_long <= 0
    /\ 0 <= line_grad 2 3 (x_flat .+ l_max *: p_long)%num p_long.
Proof.
  exact (@line_search_postcondition 2 3 1 (200007495 / 100000000) 1
           0 1000000000 0 _ line_search_example).
Defined.

(** ** The zero direction and the flat start *)

(** When the derivative at the start is exactly 0 the first [lb] is 0, the
    first loop leaves at once, the bracket is [0, 0], the second loop's body
    never runs, and [return x+lnew*p] reads a name that was never bound. *)
Lemma line_search_flat_start
    (a b x1 x2 x3 p1 p2 p3 feeler_init feeler_step tolerance : R)
    (max_iters : Z) :
  let x := np.col3 x1 x2 x3 in
  let p := np.col3 p1 p2 p3 in
  0 <= tolerance ->
  line_grad a b x p = 0 ->
  my_line_search a b x p feeler_init feeler_step tolerance max_iters
  = Raise (UnboundLocalError "lnew").
Proof.
  intros x p Htol Hg. subst x p. unfold my_line_search. rewrite Hg.
  assert (Hlb : num_mul (num_opp 0) feeler_init = 0) by (to_R; ring).
  rewrite Hlb.
  rewrite (expand_ok a b _ _ feeler_step 0 0 0 (n := 0));
    [|apply loop_fuel_enough|intros j Hj; lia| |now left].
  2:{ rewrite nth_lb_zero. apply expand_test_false. lra. }
  cbn [bind]. rewrite nth_lb_zero, py_min_R, py_max_R. to_R.
  rewrite Rmin_left, Rmax_left by lra.
  rewrite (bisect_ok a b _ _ tolerance 0 _ (n := 0));
    [|apply loop_fuel_enough|intros j Hj; lia| |now left].
  - rewrite nth_bracket_zero. reflexivity.
  - rewrite nth_bracket_zero. apply bisect_test_false. cbn [lmin lmax]. lra.
Qed.

(** C4.  The zero direction is not handled by returning the input point:
    for every point, the line search called with the zero direction in the
    default configuration raises [UnboundLocalError] and returns no point. *)
Theorem line_search_zero_direction (a b x1 x2 x3 : R) :
  get_next_x a b (np.col3 x1 x2 x3) p_zero = Raise (UnboundLocalError "lnew").
Proof.
  unfold get_next_x, p_zero. apply line_search_flat_start.
  - unfold lit_1e_7. to_R. lra.
  - apply line_grad_zero_direction.
Qed.

(** ** The two phases of the line search *)

(** C6.  With [max_iters] at least 1: if the product of the derivative at
    the start with the derivative at [lb] is positive at the first [lb] and
    after each of the first [max_iters - 1] doublings, so that the loop
    performs [max_iters] doublings, [my_line_search] raises the timeout
    error of the expansion phase and returns no point.  Otherwise the
    expansion phase leaves normally, after fewer than [max_iters] doublings,
    with an [lb] at which that product is at most 0. *)
Theorem bracket_expansion_outcome
    (a b x1 x2 x3 p1 p2 p3 feeler_init feeler_step tolerance : R)
    (max_iters : Z) :
  let x := np.col3 x1 x2 x3 in
  let p := np.col3 p1 p2 p3 in
  let lgla := line_grad a b x p in
  let lb (k : nat) := - lgla * feeler_init * feeler_step ^ k in
  let product (k : nat) := lgla * line_grad a b (x .+ lb k *: p)%num p in
  (1 <= max_iters)%Z ->
  ((forall k : nat, (Z.of_nat k < max_iters)%Z -> product k > 0) ->
   my_line_search a b x p feeler_init feeler_step tolerance max_iters
   = Raise (TimeoutError "Timed out in bounds expansion"))
  /\ (~ (forall k : nat, (Z.of_nat k < max_iters)%Z -> product k > 0) ->
      exists n : nat,
        (Z.of_nat n < max_iters)%Z
        /\ expand a b x p feeler_step max_iters (loop_fuel max_iters)
             lgla 0 (- lgla * feeler_init)
           = Ok (lb n)
        /\ product n <= 0
        /\ my_line_search a b x p feeler_init feeler_step tolerance max_iters
           <> Raise (TimeoutError "Timed out in bounds expansion")).
Proof.
  intros x p lgla lb product Hmax.
  assert (Hprod_false : forall k,
             expand_test a b x p lgla (nth_lb feeler_step (- lgla * feeler_init) k)
             = false <-> product k <= 0).
  { intros k. unfold x, p. rewrite expand_test_false, nth_lb_pow. reflexivity. }
  assert (Hprod_true : forall k,
             expand_test a b x p lgla (nth_lb feeler_step (- lgla * feeler_init) k)
             = true <-> product k > 0).
  { intros k. unfold x, p. rewrite expand_test_true, nth_lb_pow. reflexivity. }
  assert (Hlb : forall k, nth_lb feeler_step (- lgla * feeler_init) k = lb k)
    by (intros k; apply nth_lb_pow).
  destruct (expand_cases a b x p feeler_step max_iters lgla 0
              (- lgla * feeler_init) (loop_fuel_enough max_iters))
    as [(n & He & Hn & _ & Hb)|(He & Hall)].
  - assert (Hnmax : (Z.of_nat n < max_iters)%Z) by (destruct Hb; lia).
    apply Hprod_false in Hn. split.
    + intros Hpos. specialize (Hpos n Hnmax). lra.
    + intros _. exists n. rewrite <- Hlb. repeat split; auto.
      unfold my_line_search. fold lgla.
      change (num_mul (num_opp lgla) feeler_init) with (- lgla * feeler_init).
      rewrite He. cbn [bind].
      match goal with
      | |- context [bisect _ _ _ _ _ _ _ _ ?s0] =>
          destruct (bisect_cases a b x p tolerance max_iters 0 s0
                      (loop_fuel_enough max_iters)) as [(m & Hbi & _)|(Hbi & _)]
      end; rewrite Hbi; cbn [bind]; [destruct (lnew _)|]; discriminate.
  - split.
    + intros _. unfold my_line_search. fold lgla.
      change (num_mul (num_opp lgla) feeler_init) with (- lgla * feeler_init).
      now rewrite He.
    + intros Hnot. exfalso. apply Hnot. intros k Hk.
      apply Hprod_true, Hall. now right.
Qed.

(** Along [p_tiny] a thousand doublings of the first [lb] do not reach the
    change of sign. *)
Lemma p_tiny_scale (k : nat) :
  (k < 1000)%nat -> 0 < 2 ^ k * / 2 ^ 1000 <= 1.
Proof.
  intros Hk.
  assert (Hpos : 0 < 2 ^ 1000) by (apply pow_lt; lra).
  assert (Hk2 : 0 < 2 ^ k) by (apply pow_lt; lra).
  assert (Hle : 2 ^ k <= 2 ^ 1000) by (apply Rle_pow; [lra|lia]).
  split.
  - apply Rmult_lt_0_compat; [exact Hk2|now apply Rinv_0_lt_compat].
  - apply (Rmult_le_reg_r (2 ^ 1000)); [exact Hpos|].
    rewrite Rmult_assoc, Rinv_l, Rmult_1_r, Rmult_1_l by lra. exact Hle.
Qed.

Lemma p_tiny_products_positive (k : nat) :
  (Z.of_nat k < 1000)%Z ->
  let lgla := line_grad 2 3 x_up p_tiny in
  lgla * line_grad 2 3
           (x_up .+ (- lgla * lit_1e_3 * 2 ^ k) *: p_tiny)%num p_tiny > 0.
Proof.
  intros Hk lgla.
  assert (HP : 0 < / 2 ^ 1000)
    by (apply Rinv_0_lt_compat, pow_lt; lra).
  assert (Hg : lgla = 2 + 1 / 10^7).
  { unfold lgla, x_up, p_tiny. rewrite (line_grad_along_y 2 3 1 3 1 HP). lra. }
  change (line_grad 2 3 (x_up .+ (- lgla * lit_1e_3 * 2 ^ k) *: p_tiny)%num p_tiny)
    with (phi 2 3 x_up p_tiny (- lgla * lit_1e_3 * 2 ^ k)).
  unfold x_up, p_tiny. rewrite (phi_along_y 2 3 1 3 1 _ HP).
  destruct (@p_tiny_scale k ltac:(lia)) as [Hq0 Hq1].
  set (q := 2 ^ k * / 2 ^ 1000) in *.
  replace (2 * (3 + - lgla * lit_1e_3 * 2 ^ k * / 2 ^ 1000 - 2) + 1 / 10 ^ 7)
    with (lgla * (1 - 2 * lit_1e_3 * q))
    by (rewrite Hg; unfold q, lit_1e_3; to_R; lra).
  assert (0 < 1 - 2 * lit_1e_3 * q) by (unfold lit_1e_3; to_R; lra).
  rewrite Hg in *. apply Rmult_gt_0_compat; [lra|].
  apply Rmult_gt_0_compat; lra.
Qed.

Lemma x_flat_product_nonpositive :
  let lgla := line_grad 2 3 x_flat p_long in
  ~ (forall k : nat, (Z.of_nat k < 1000)%Z ->
       lgla * line_grad 2 3
                (x_flat .+ (- lgla * lit_1e_3 * 2 ^ k) *: p_long)%num p_long > 0).
Proof.
  intros lgla Hall. specialize (Hall 0%nat ltac:(lia)).
  change (line_grad 2 3 (x_flat .+ (- lgla * lit_1e_3 * 2 ^ 0) *: p_long)%num p_long)
    with (phi 2 3 x_flat p_long (- lgla * lit_1e_3 * 2 ^ 0)) in Hall.
  unfold lgla in Hall. rewrite phi_x_flat, line_grad_x_flat in Hall.
  unfold lit_1e_3 in Hall. to_R. lra.
Qed.

Lemma bracket_expansion_outcome_witness :
  (1 <= 1000)%Z
  /\ my_line_search 2 3 x_up p_tiny lit_1e_3 2 lit_1e_7 1000
     = Raise (TimeoutError "Timed out in bounds expansion")
  /\ exists n : nat,
       (Z.of_nat n < 1000)%Z
       /\ expand 2 3 x_flat p_long 2 1000 (loop_fuel 1000)
            (line_grad 2 3 x_flat p_long) 0
            (- line_grad 2 3 x_flat p_long * lit_1e_3)
          = Ok (- line_grad 2 3 x_flat p_long * lit_1e_3 * 2 ^ n)
       /\ line_grad 2 3 x_flat p_long
          * line_grad 2 3
              (x_flat .+ (- line_grad 2 3 x_flat p_long * lit_1e_3 * 2 ^ n)
                         *: p_long)%num p_long <= 0
       /\ my_line_search 2 3 x_flat p_long lit_1e_3 2 lit_1e_7 1000
          <> Raise (TimeoutError "Timed out in bounds expansion").
Proof.
  assert (H1000 : (1 <= 1000)%Z) by (intros H; discriminate H).
  split; [exact H1000|]. split.
  - exact (proj1 (@bracket_expansion_outcome 2 3 1 3 1 0 (/ 2 ^ 1000) 0
                    lit_1e_3 2 lit_1e_7 1000 H1000)
                 p_tiny_products_positive).
  - exact (proj2 (@bracket_expansion_outcome 2 3 1 (200007495 / 100000000) 1
                    0 1000000000 0 lit_1e_3 2 lit_1e_7 1000 H1000)
                 x_flat_product_nonpositive).
Defined.


(** Once the first loop has left [lb], the outcome of [my_line_search] is
    read off the outcome of the second loop run from min(0, lb), max(0, lb). *)
Lemma my_line_search_after_expand
    (a b : R) (x p : np.matrix R) (feeler_init feeler_step tolerance lb : R)
    (max_iters : Z) :
  expand a b x p feeler_step max_iters (loop_fuel max_iters)
    (line_grad a b x p) 0 (- line_grad a b x p * feeler_init) = Ok lb ->
  my_line_search a b x p feeler_init feeler_step tolerance max_iters
  = match bisect a b x p tolerance max_iters (loop_fuel max_iters) 0
            (Bracket (py_min 0 lb) (py_max 0 lb) None) with
    | Ok s => match lnew s with
              | Some l => Ok (x .+ l *: p)%num
              | None => Raise (UnboundLocalError "lnew")
              end
    | Raise e => Raise e
    | OutOfFuel => OutOfFuel
    end.
Proof.
  intros Hexp. unfold my_line_search.
  change (num_mul (num_opp (line_grad a b x p)) feeler_init)
    with (- line_grad a b x p * feeler_init).
  rewrite Hexp. reflexivity.
Qed.








(** ** The step is taken along the raw direction *)



(** A normal return never gives back the point the search started from. *)
Lemma line_search_moves
    (a b x1 x2 x3 p1 p2 p3 feeler_init feeler_step tolerance : R)
    (max_iters : Z) (x' : np.matrix R) :
  0 < feeler_init -> 0 < feeler_step -> 0 <= tolerance ->
  my_line_search a b (np.col3 x1 x2 x3) (np.col3 p1 p2 p3)
    feeler_init feeler_step tolerance max_iters = Ok x' ->
  x' <> np.col3 x1 x2 x3.
Proof.
  intros Hfi Hfs Htol Hok.
  destruct (line_search_normal_return a b x1 x2 x3 p1 p2 p3 max_iters
              Hfi Hfs Htol Hok)
    as (n & s & l & (_ & _ & _ & _ & _ & Hnew) & _ & Hl & ->).
  destruct (Hnew l Hl) as [_ [HL HU]].
  set (lb := - line_grad a b (np.col3 x1 x2 x3) (np.col3 p1 p2 p3)
             * feeler_init * feeler_step ^ n) in *.
  assert (Hl0 : l <> 0).
  { destruct (Rle_or_lt lb 0).
    - rewrite Rmax_left in HU by lra. lra.
    - rewrite Rmin_left in HL by lra. lra. }
  assert (Hlb : lb <> 0).
  { intros E. rewrite E, Rmin_left, Rmax_left in * by lra. lra. }
  rewrite at_step_col3. unfold np.col3. intros E.
  injection E as E1 E2 E3.
  assert (p1 = 0) by nra. assert (p2 = 0) by nra. assert (p3 = 0) by nra.
  subst p1 p2 p3. apply Hlb. unfold lb.
  change (np.col3 0 0 0) with p_zero. rewrite line_grad_zero_direction. ring.
Qed.

(** ** The driver *)

(** C3, amended.  Over any arithmetic, for a start point x0 and
    [n_iters >= 1]: when the driver returns normally, [x_ts] and [p_ts] have
    length [n_iters]; the pair at index 0 is the start pair (x0, grad(x0)),
    not an iterate; and every two consecutive pairs (x_k, p_k),
    (x_k+1, p_k+1) satisfy x_k+1 = my_line_search(x_k, p_k) and
    p_k+1 = get_next_p(x_k, x_k+1, p_k), in the order in which they were
    computed.  The line search is run [n_iters - 1] times. *)
Theorem driver_trajectory
    {A : Type} {ar : Arith A} (a b : A) (x0 : np.matrix A) (n_iters : Z)
    (s : driver_state A) :
  (1 <= n_iters)%Z ->
  driver a b x0 n_iters = Ok s ->
  length (x_ts s) = Z.to_nat n_iters
  /\ length (p_ts s) = Z.to_nat n_iters
  /\ length (trajectory s) = Z.to_nat n_iters
  /\ nth_error (trajectory s) 0 = Some (x0, grad a b x0 lit_1e_7)
  /\ follows_recurrence a b (trajectory s).
Proof.
  intros Hn Hrun. unfold driver in Hrun.
  eapply driver_loop_inv in Hrun;
    [|exact (driver_init_inv a b x0)|cbn [driver_init i]; lia].
  destruct Hrun as [(Hi & Hx & Hp & H0 & _ & Hrec) Hend].
  rewrite Hend in *.
  split; [exact Hx|]. split; [exact Hp|]. split; [|split; [exact H0|exact Hrec]].
  unfold trajectory. rewrite length_combine. lia.
Qed.

(** With [n_iters = 1] the driver returns the one pair (x0, grad(x0)), and
    x0 is not what the line search returns from (x0, grad(x0)). *)
Lemma driver_index_0_is_start :
  exists s : driver_state R,
    driver 2 3 x0 1 = Ok s
    /\ length (trajectory s) = 1%nat
    /\ nth_error (trajectory s) 0 = Some (x0, grad 2 3 x0 lit_1e_7)
    /\ get_next_x 2 3 x0 (grad 2 3 x0 lit_1e_7) <> Ok x0.
Proof.
  exists (driver_init 2 3 x0). repeat split.
  unfold get_next_x. rewrite grad_x0_value. unfold x0. intros H.
  apply line_search_moves in H.
  - now apply H.
  - unfold lit_1e_3. to_R. lra.
  - to_R. lra.
  - unfold lit_1e_7. to_R. lra.
Qed.

(** ** Two runs *)

Section Runs.
Context {A : Type} {ar : Arith A}.
Variables a b : A.

(** One round of the loop on the namespace is one round of [driver_body] on
    the variables the namespace binds; it reads no other name. *)
Lemma cell_body_sim (g : namespace A) (s : driver_state A) :
  binds g s ->
  match driver_body a b s with
  | Ok s' => exists g' : namespace A,
               cell_body a b g = Ok g' /\ binds g' s'
               /\ g_x0 g' = g_x0 g /\ g_n_iters g' = g_n_iters g
  | Raise e => cell_body a b g = Raise e
  | OutOfFuel => cell_body a b g = OutOfFuel
  end.
Proof.
  intros (Hx & Hp & Hxs & Hps & Hi).
  destruct g as [gx0 gp0 gn gx gp gxs gps gi gnx gnp].
  cbn [g_this_x g_this_p g_x_ts g_p_ts g_i] in *. subst.
  unfold cell_body, driver_body.
  cbn [load bind g_this_x g_this_p].
  destruct (get_next_x a b (this_x s) (this_p s)) as [nx|e|];
    cbn [bind]; try reflexivity.
  cbn [load bind set_next_x set_next_p set_this_x set_this_p set_x_ts
       set_p_ts set_i g_x0 g_p0 g_n_iters g_this_x g_this_p g_x_ts g_p_ts
       g_i g_next_x g_next_p].
  eexists. split; [reflexivity|].
  unfold binds.
  cbn [g_x0 g_n_iters g_this_x g_this_p g_x_ts g_p_ts g_i
       this_x this_p x_ts p_ts i].
  repeat split.
Qed.

Lemma cell_loop_sim (n : Z) (fuel : nat) :
  forall (g : namespace A) (s : driver_state A),
    g_n_iters g = Some n ->
    binds g s ->
    match driver_loop a b n fuel s with
    | Ok s' => exists g' : namespace A,
                 cell_loop a b fuel g = Ok g' /\ binds g' s'
                 /\ g_x0 g' = g_x0 g
    | Raise e => cell_loop a b fuel g = Raise e
    | OutOfFuel => cell_loop a b fuel g = OutOfFuel
    end.
Proof.
  induction fuel as [|fuel IH]; intros g s Hn Hb; [reflexivity|].
  cbn [driver_loop cell_loop].
  pose proof Hb as (_ & _ & _ & _ & Hi). rewrite Hi, Hn. cbn [load bind].
  destruct (i s <? n)%Z.
  - pose proof (cell_body_sim Hb) as Hbody.
    destruct (driver_body a b s) as [s1|e|]; cbn [bind].
    + destruct Hbody as (g1 & -> & Hb1 & Hx0 & Hn1). cbn [bind].
      rewrite Hn in Hn1. specialize (IH g1 s1 Hn1 Hb1).
      destruct (driver_loop a b n fuel s1) as [s'|e|]; auto.
      destruct IH as (g' & Hrun & Hb' & Hx0').
      exists g'. split; [exact Hrun|split; [exact Hb'|congruence]].
    + now rewrite Hbody.
    + now rewrite Hbody.
  - exists g. auto.
Qed.

(** A run in a namespace that binds [x0] is a run of [driver] from that
    point, whatever else the namespace binds. *)
Lemma run_cells_driver (n : Z) (g : namespace A) (x0 : np.matrix A) :
  g_x0 g = Some x0 ->
  match driver a b x0 n with
  | Ok s => exists g' : namespace A,
              run_cells a b n g = Ok g' /\ binds g' s /\ g_x0 g' = Some x0
  | Raise e => run_cells a b n g = Raise e
  | OutOfFuel => run_cells a b n g = OutOfFuel
  end.
Proof.
  intros Hx0.
  destruct g as [gx0 gp0 gn gx gp gxs gps gi gnx gnp].
  cbn [g_x0] in Hx0. subst gx0.
  unfold run_cells, stmt_p0, cell_init, driver.
  cbn [load bind g_x0 g_p0 g_this_x g_this_p
       set_p0 set_n_iters set_this_x set_this_p set_x_ts set_p_ts set_i].
  match goal with
  | |- context [cell_loop a b ?fuel ?g0] =>
      pose proof (@cell_loop_sim n fuel g0 (driver_init a b x0) eq_refl) as H
  end.
  match type of H with
  | ?P -> _ => assert (Hb : P) by (unfold binds, driver_init; cbn; auto)
  end.
  specialize (H Hb).
  destruct (driver_loop a b n (S (Z.to_nat n)) (driver_init a b x0))
    as [s|e|]; auto.
Qed.

Lemma run_cells_unbound (n : Z) (g : namespace A) :
  g_x0 g = None -> run_cells a b n g = Raise (NameError "x0").
Proof.
  intros Hx0. unfold run_cells, stmt_p0. now rewrite Hx0.
Qed.

(** What a run records is what [driver] computes from the start point. *)
Lemma recorded_run (n : Z) (g : namespace A) (x0 : np.matrix A) :
  g_x0 g = Some x0 ->
  recorded (run_cells a b n g)
  = match driver a b x0 n with
    | Ok s => Ok (Some (x_ts s), Some (p_ts s))
    | Raise e => Raise e
    | OutOfFuel => OutOfFuel
    end.
Proof.
  intros Hx0. pose proof (run_cells_driver n g Hx0) as H.
  destruct (driver a b x0 n) as [s|e|].
  - destruct H as (g' & -> & (_ & _ & Hxs & Hps & _) & _).
    cbn [recorded]. now rewrite Hxs, Hps.
  - now rewrite H.
  - now rewrite H.
Qed.

(** C8.  Over any arithmetic, rounding included.  A run is the statement
    [p0 = grad(x0)] followed by the driver cell, for given [a], [b] and
    [n_iters], the step of [grad] and the parameters of the line search
    being the defaults.  Two runs started in namespaces that bind the same
    start point x0 end alike, whatever else the two namespaces bind: both
    raise the same error, or both return with the same [x_ts] and the same
    [p_ts], entry for entry.  A run always ends.  It leaves x0 as it found
    it, so that a second run, started in the namespace the first has left,
    records again what the first recorded.  What is recorded is the
    trajectory that the function [driver] computes from x0. *)
Theorem driver_deterministic (n_iters : Z) (g g' : namespace A) :
  g_x0 g = g_x0 g' ->
  recorded (run_cells a b n_iters g) = recorded (run_cells a b n_iters g')
  /\ run_cells a b n_iters g <> OutOfFuel
  /\ (forall g1 : namespace A,
        run_cells a b n_iters g = Ok g1 ->
        g_x0 g1 = g_x0 g
        /\ recorded (run_cells a b n_iters g1)
           = recorded (run_cells a b n_iters g))
  /\ (forall x0 : np.matrix A,
        g_x0 g = Some x0 ->
        recorded (run_cells a b n_iters g)
        = match driver a b x0 n_iters with
          | Ok s => Ok (Some (x_ts s), Some (p_ts s))
          | Raise e => Raise e
          | OutOfFuel => OutOfFuel
          end).
Proof.
  intros Hsame.
  destruct (g_x0 g) as [x0|] eqn:Hx0.
  - split; [|split; [|split]].
    + rewrite (recorded_run n_iters g Hx0).
      now rewrite (recorded_run n_iters g' (eq_sym Hsame)).
    + pose proof (run_cells_driver n_iters g Hx0) as H.
      pose proof (driver_total a b x0 n_iters) as Htot.
      destruct (driver a b x0 n_iters) as [s|e|]; [| |contradiction].
      * destruct H as (g1 & -> & _). discriminate.
      * rewrite H. discriminate.
    + intros g1 Hrun.
      pose proof (run_cells_driver n_iters g Hx0) as H.
      destruct (driver a b x0 n_iters) as [s|e|] eqn:Hd.
      * destruct H as (g2 & Hrun2 & _ & Hx2).
        assert (g2 = g1) as -> by congruence.
        split; [exact Hx2|].
        rewrite (recorded_run n_iters g1 Hx2).
        now rewrite (recorded_run n_iters g Hx0).
      * congruence.
      * congruence.
    + intros x Hx. injection Hx as <-. now apply recorded_run.
  - split; [|split; [|split]].
    + rewrite (run_cells_unbound n_iters g Hx0).
      now rewrite (run_cells_unbound n_iters g' (eq_sym Hsame)).
    + rewrite (run_cells_unbound n_iters g Hx0). discriminate.
    + intros g1 Hrun. rewrite (run_cells_unbound n_iters g Hx0) in Hrun.
      discriminate.
    + intros x Hx. discriminate.
Qed.
End Runs.

(** ** Runs

    The same definitions, executed.  Over the rationals the three runs below
    take no square root of a non-square, so they are runs in exact
    arithmetic; they agree with [grad_x0_value], [line_search_example] and
    [line_search_flat_start].  In twenty decimals, the first iteration of the
    driver from x0 gives, to six decimals, the point and the direction that
    the notebook prints. *)

Example grad_x0_computed :
  grad (2 # 1) (3 # 1) Qx0 lit_1e_7
  = [[4000000600000040000001 # 500000000000000000000];
     [20000001 # 10000000];
     [12000001800000120000003 # 1000000000000000000000]]%Q.
Proof. vm_compute. reflexivity. Qed.

Example line_search_example_computed :
  my_line_search (2 # 1) (3 # 1) Qx_flat Qp_long lit_1e_3 (2 # 1) lit_1e_7 1000
  = Ok [[1 # 1]; [- 1459998501 # 20000000]; [1 # 1]]%Q
  /\ line_grad (2 # 1) (3 # 1)
       [[1 # 1]; [- 1459998501 # 20000000]; [1 # 1]]%Q Qp_long
     = (- 2999997 # 20000)%Q.
Proof. split; vm_compute; reflexivity. Qed.

Example zero_direction_computed :
  get_next_x (2 # 1) (3 # 1) Qx0 Qp_zero = Raise (UnboundLocalError "lnew").
Proof. vm_compute. reflexivity. Qed.

(* The notebook prints 1.143363  2.785841  0.715044 for row 1 of its table,
   [[ 0.11971635] [ 1.59571753] [-0.13344435]] for the next direction, and
   7.799705841748938e-07 for the derivative along grad(x0) at the point that
   the first line search returns.  The third component below is that
   derivative in units of 1e-8, rounded down. *)
Example first_iteration_computed :
  match driver Fa Fb Fx0 2 with
  | Ok s => (map (map (map Fixed.round6)) (x_ts s),
             map (map (map Fixed.round6)) (p_ts s),
             (line_grad Fa Fb (this_x s) (nth 0 (p_ts s) []) / 10 ^ 12)%Z)
  | _ => ([], [], 0%Z)
  end
  = ([[[2000000]; [3000000]; [2000000]];
      [[1143363]; [2785841]; [715044]]],
     [[[8000001]; [2000000]; [12000002]];
      [[119716]; [1595718]; [-133444]]],
     76)%Z.
Proof. vm_compute. reflexivity. Qed.

(** * Further properties of the notebook's functions *)

Unset Implicit Arguments.

(** ** The objective *)

Lemma two_pos : 0 < 2.
Proof. lra. Qed.

Lemma three_pos : 0 < 3.
Proof. lra. Qed.

Lemma two_nonneg : 0 <= 2.
Proof. lra. Qed.

Lemma three_nonneg : 0 <= 3.
Proof. lra. Qed.

Lemma pow4_zero (u : R) : u ^ 4 = 0 -> u = 0.
Proof.
  intros H. replace (u ^ 4) with ((u * u) * (u * u)) in H by ring.
  apply Rmult_integral in H. destruct H as [H|H];
    apply Rmult_integral in H; destruct H; assumption.
Qed.

(** X1.  For [a], [b] not negative, [f] at a point is a single value that
    is not negative, and it is 0 at [answer]; for [a], [b] positive, [answer]
    is the only point where [f] is 0. *)
Theorem f_minimum_at_answer (a b x y z : R) :
  0 <= a -> 0 <= b ->
  (exists v : R, f a b (np.col3 x y z) = [v] /\ 0 <= v)
  /\ f a b answer = [0]
  /\ (0 < a -> 0 < b -> f a b (np.col3 x y z) = [0] -> np.col3 x y z = answer).
Proof.
  intros Ha Hb.
  assert (H4 : forall u : R, 0 <= u ^ 4).
  { intros u. replace (u ^ 4) with ((u * u) * (u * u)) by ring.
    apply Rle_0_sqr. }
  assert (H2 : forall u : R, 0 <= u ^ 2) by (intros u; apply pow2_ge_0).
  split; [|split].
  - exists (Spec.objective a b x y z). split; [apply f_col3|].
    unfold Spec.objective.
    pose proof (H4 (x - 1)). pose proof (H4 (z - 1)). pose proof (H2 (y - 2)).
    assert (0 <= a * (x - 1) ^ 4) by now apply Rmult_le_pos.
    assert (0 <= b * (z - 1) ^ 4) by now apply Rmult_le_pos.
    lra.
  - unfold answer. to_R. rewrite f_col3. unfold Spec.objective. f_equal. ring.
  - intros Ha' Hb' Hf. rewrite f_col3 in Hf. injection Hf as Hf.
    unfold Spec.objective in Hf.
    pose proof (H4 (x - 1)) as Hx. pose proof (H4 (z - 1)) as Hz.
    pose proof (H2 (y - 2)) as Hy.
    assert (Hax : 0 <= a * (x - 1) ^ 4) by (apply Rmult_le_pos; lra).
    assert (Hbz : 0 <= b * (z - 1) ^ 4) by (apply Rmult_le_pos; lra).
    assert (Ex : (x - 1) ^ 4 = 0).
    { assert (E : a * (x - 1) ^ 4 = 0) by lra.
      apply Rmult_integral in E. destruct E; lra. }
    assert (Ez : (z - 1) ^ 4 = 0).
    { assert (E : b * (z - 1) ^ 4 = 0) by lra.
      apply Rmult_integral in E. destruct E; lra. }
    assert (Ey : (y - 2) ^ 2 = 0) by lra.
    apply pow4_zero in Ex, Ez.
    replace ((y - 2) ^ 2) with ((y - 2) * (y - 2)) in Ey by ring.
    apply Rmult_integral in Ey.
    unfold answer. to_R. f_equal; [| |]; destruct Ey; lra.
Qed.

Lemma f_minimum_at_answer_witness :
  (exists v : R, f 2 3 x0 = [v] /\ 0 <= v)
  /\ f 2 3 answer = [0]
  /\ (0 < 2 -> 0 < 3 -> f 2 3 x0 = [0] -> x0 = answer).
Proof.
  exact (@f_minimum_at_answer 2 3 2 3 2 two_nonneg three_nonneg).
Defined.

(** ** The gradient estimator *)

Lemma quartic_bias_pos (h d : R) : 0 < d -> 0 < 6 * h ^ 2 + 4 * h * d + d ^ 2.
Proof.
  intros Hd.
  replace (6 * h ^ 2 + 4 * h * d + d ^ 2)
    with (6 * ((h + d / 3) * (h + d / 3)) + d * d / 3) by field.
  pose proof (Rle_0_sqr (h + d / 3)) as Hs. unfold Rsqr in Hs.
  assert (0 < d * d) by now apply Rmult_lt_0_compat.
  lra.
Qed.

(** X2.  For [a], [b] and the step positive, every component of [grad] is
    strictly above the same component of the analytical gradient
    (4a(x-1)^3, 2(y-2), 4b(z-1)^3): the excess is
    a d (6(x-1)^2 + 4(x-1)d + d^2), d and b d (6(z-1)^2 + 4(z-1)d + d^2). *)
Theorem grad_overestimates (a b x y z delta : R) :
  0 < a -> 0 < b -> 0 < delta ->
  exists e1 e2 e3 : R,
    grad a b (np.col3 x y z) delta
    = np.col3 (4 * a * (x - 1) ^ 3 + e1) (2 * (y - 2) + e2)
              (4 * b * (z - 1) ^ 3 + e3)
    /\ Spec.analytic_grad a b x y z
       = np.col3 (4 * a * (x - 1) ^ 3) (2 * (y - 2)) (4 * b * (z - 1) ^ 3)
    /\ e1 = a * delta * (6 * (x - 1) ^ 2 + 4 * (x - 1) * delta + delta ^ 2)
    /\ e2 = delta
    /\ e3 = b * delta * (6 * (z - 1) ^ 2 + 4 * (z - 1) * delta + delta ^ 2)
    /\ 0 < e1 /\ 0 < e2 /\ 0 < e3.
Proof.
  intros Ha Hb Hd.
  exists (a * delta * (6 * (x - 1) ^ 2 + 4 * (x - 1) * delta + delta ^ 2)),
         delta,
         (b * delta * (6 * (z - 1) ^ 2 + 4 * (z - 1) * delta + delta ^ 2)).
  split; [|split; [reflexivity|]].
  - rewrite grad_col3. unfold Spec.forward_difference, Spec.objective.
    f_equal; field; lra.
  - repeat split; auto.
    + apply Rmult_lt_0_compat; [now apply Rmult_lt_0_compat|].
      now apply quartic_bias_pos.
    + apply Rmult_lt_0_compat; [now apply Rmult_lt_0_compat|].
      now apply quartic_bias_pos.
Qed.

Lemma tenth_pos : 0 < 1 / 10.
Proof. lra. Qed.

Lemma tenth_nonzero : 1 / 10 <> 0.
Proof. lra. Qed.

Lemma grad_overestimates_witness :
  exists e1 e2 e3 : R,
    grad 2 3 (np.col3 2 3 2) (1 / 10)
    = np.col3 (4 * 2 * (2 - 1) ^ 3 + e1) (2 * (3 - 2) + e2)
              (4 * 3 * (2 - 1) ^ 3 + e3)
    /\ Spec.analytic_grad 2 3 2 3 2
       = np.col3 (4 * 2 * (2 - 1) ^ 3) (2 * (3 - 2)) (4 * 3 * (2 - 1) ^ 3)
    /\ e1 = 2 * (1 / 10) * (6 * (2 - 1) ^ 2 + 4 * (2 - 1) * (1 / 10) + (1 / 10) ^ 2)
    /\ e2 = 1 / 10
    /\ e3 = 3 * (1 / 10) * (6 * (2 - 1) ^ 2 + 4 * (2 - 1) * (1 / 10) + (1 / 10) ^ 2)
    /\ 0 < e1 /\ 0 < e2 /\ 0 < e3.
Proof.
  exact (@grad_overestimates 2 3 2 3 2 (1 / 10) two_pos three_pos tenth_pos).
Defined.

Lemma quotient_zero (u d : R) : d <> 0 -> u / d = 0 -> u = 0.
Proof.
  intros Hd H. unfold Rdiv in H. apply Rmult_integral in H.
  destruct H as [H|H]; [exact H|].
  now apply Rinv_neq_0_compat in Hd.
Qed.

Lemma quartic_difference_zero (h d : R) :
  d <> 0 -> (h + d) ^ 4 - h ^ 4 = 0 -> h = - d / 2.
Proof.
  intros Hd H.
  replace ((h + d) ^ 4 - h ^ 4)
    with (d * ((2 * h + d) * ((h + d) * (h + d) + h * h))) in H by ring.
  apply Rmult_integral in H. destruct H as [H|H]; [contradiction|].
  apply Rmult_integral in H. destruct H as [H|H]; [lra|].
  exfalso.
  pose proof (Rle_0_sqr (h + d)) as H1. pose proof (Rle_0_sqr h) as H2.
  unfold Rsqr in H1, H2.
  assert (E : h * h = 0) by lra.
  apply Rmult_integral in E.
  assert (E' : (h + d) * (h + d) = 0) by lra.
  apply Rmult_integral in E'.
  destruct E, E'; lra.
Qed.

(** X3.  For [a], [b] and the step other than 0, [grad] is the zero vector
    at exactly one point, (1 - d/2, 2 - d/2, 1 - d/2): the minimizer moved by
    half a step in every coordinate.  At [answer] itself [grad] is
    (a d^3, d, b d^3). *)
Theorem grad_vanishes_only_at_x_star (a b x y z delta : R) :
  a <> 0 -> b <> 0 -> delta <> 0 ->
  (grad a b (np.col3 x y z) delta = p_zero <-> np.col3 x y z = x_star delta)
  /\ grad a b answer delta = np.col3 (a * delta ^ 3) delta (b * delta ^ 3).
Proof.
  intros Ha Hb Hd. split; [split|].
  - rewrite grad_col3.
    unfold Spec.forward_difference, Spec.objective, p_zero, x_star, np.col3.
    intros H. injection H as H1 H2 H3.
    apply quotient_zero in H1, H2, H3; try exact Hd.
    assert (E1 : ((x - 1) + delta) ^ 4 - (x - 1) ^ 4 = 0).
    { assert (E : a * (((x - 1) + delta) ^ 4 - (x - 1) ^ 4) = 0)
        by (rewrite <- H1; ring).
      apply Rmult_integral in E. destruct E; [contradiction|assumption]. }
    assert (E3 : ((z - 1) + delta) ^ 4 - (z - 1) ^ 4 = 0).
    { assert (E : b * (((z - 1) + delta) ^ 4 - (z - 1) ^ 4) = 0)
        by (rewrite <- H3; ring).
      apply Rmult_integral in E. destruct E; [contradiction|assumption]. }
    apply quartic_difference_zero in E1, E3; try exact Hd.
    assert (E2 : delta * (2 * (y - 2) + delta) = 0) by (rewrite <- H2; ring).
    apply Rmult_integral in E2. destruct E2 as [E2|E2]; [contradiction|].
    f_equal; [|f_equal; [|f_equal]]; f_equal; lra.
  - unfold x_star, np.col3. intros H. injection H as -> -> ->.
    fold (np.col3 (1 - delta / 2) (2 - delta / 2) (1 - delta / 2)).
    rewrite grad_col3.
    unfold Spec.forward_difference, Spec.objective, p_zero.
    f_equal; field; exact Hd.
  - unfold answer. to_R. rewrite grad_col3.
    unfold Spec.forward_difference, Spec.objective.
    f_equal; field; exact Hd.
Qed.

Lemma two_nonzero : 2 <> 0.
Proof. lra. Qed.

Lemma three_nonzero : 3 <> 0.
Proof. lra. Qed.

Lemma grad_vanishes_only_at_x_star_witness :
  (grad 2 3 (np.col3 2 3 2) (1 / 10) = p_zero
   <-> np.col3 2 3 2 = x_star (1 / 10))
  /\ grad 2 3 answer (1 / 10)
     = np.col3 (2 * (1 / 10) ^ 3) (1 / 10) (3 * (1 / 10) ^ 3).
Proof.
  exact (@grad_vanishes_only_at_x_star 2 3 2 3 2 (1 / 10)
           two_nonzero three_nonzero tenth_nonzero).
Defined.

(** ** Normalization and the directional derivative *)

Lemma square_pos (u : R) : u <> 0 -> 0 < u ^ 2.
Proof.
  intros Hu. pose proof (Rlt_0_sqr u Hu) as H. unfold Rsqr in H.
  replace (u ^ 2) with (u * u) by ring. exact H.
Qed.

Lemma sum_squares_pos (p1 p2 p3 : R) :
  np.col3 p1 p2 p3 <> p_zero -> 0 < p1 ^ 2 + p2 ^ 2 + p3 ^ 2.
Proof.
  intros Hne.
  pose proof (pow2_ge_0 p1). pose proof (pow2_ge_0 p2). pose proof (pow2_ge_0 p3).
  destruct (Req_dec p1 0) as [E1|N1].
  - destruct (Req_dec p2 0) as [E2|N2].
    + destruct (Req_dec p3 0) as [E3|N3].
      * exfalso. apply Hne. now subst.
      * assert (0 < p3 ^ 2) by (apply square_pos; exact N3). lra.
    + assert (0 < p2 ^ 2) by (apply square_pos; exact N2). lra.
  - assert (0 < p1 ^ 2) by (apply square_pos; exact N1). lra.
Qed.

Lemma normalize_col3_nonzero (p1 p2 p3 : R) :
  0 < p1 ^ 2 + p2 ^ 2 + p3 ^ 2 ->
  normalize (np.col3 p1 p2 p3)
  = np.col3 (p1 / sqrt (p1 ^ 2 + p2 ^ 2 + p3 ^ 2))
            (p2 / sqrt (p1 ^ 2 + p2 ^ 2 + p3 ^ 2))
            (p3 / sqrt (p1 ^ 2 + p2 ^ 2 + p3 ^ 2)).
Proof.
  intros Hs. unfold normalize. rewrite norm_col3.
  assert (Hr : 0 < sqrt (p1 ^ 2 + p2 ^ 2 + p3 ^ 2)) by now apply sqrt_lt_R0.
  to_R. rewrite (proj2 (Reqb_false _ 0)) by lra. reflexivity.
Qed.

Lemma normalized_sum_squares (p1 p2 p3 : R) :
  let s := p1 ^ 2 + p2 ^ 2 + p3 ^ 2 in
  0 < s ->
  (p1 / sqrt s) ^ 2 + (p2 / sqrt s) ^ 2 + (p3 / sqrt s) ^ 2 = 1.
Proof.
  intros s Hs.
  assert (Hr : 0 < sqrt s) by now apply sqrt_lt_R0.
  assert (Hsq : sqrt s * sqrt s = s) by (apply sqrt_sqrt; lra).
  replace ((p1 / sqrt s) ^ 2 + (p2 / sqrt s) ^ 2 + (p3 / sqrt s) ^ 2)
    with ((p1 ^ 2 + p2 ^ 2 + p3 ^ 2) / (sqrt s * sqrt s)) by (field; lra).
  rewrite Hsq. fold s. field. lra.
Qed.

(** X4.  [normalize] returns the zero vector unchanged, returns a vector of
    norm 1 for every other vector, and applied twice gives what it gives
    applied once. *)
Theorem normalize_unit_or_zero (p1 p2 p3 : R) :
  normalize p_zero = p_zero
  /\ (np.col3 p1 p2 p3 <> p_zero ->
      np.norm (normalize (np.col3 p1 p2 p3)) = 1)
  /\ normalize (normalize (np.col3 p1 p2 p3)) = normalize (np.col3 p1 p2 p3).
Proof.
  split; [exact normalize_zero|].
  assert (Hunit : np.col3 p1 p2 p3 <> p_zero ->
                  np.norm (normalize (np.col3 p1 p2 p3)) = 1
                  /\ normalize (normalize (np.col3 p1 p2 p3))
                     = normalize (np.col3 p1 p2 p3)).
  { intros Hne. pose proof (sum_squares_pos p1 p2 p3 Hne) as Hs.
    pose proof (normalized_sum_squares p1 p2 p3 Hs) as H1. cbn zeta in H1.
    rewrite (normalize_col3_nonzero p1 p2 p3 Hs). split.
    - rewrite norm_col3, H1. apply sqrt_1.
    - assert (Hr : 0 < sqrt (p1 ^ 2 + p2 ^ 2 + p3 ^ 2)) by now apply sqrt_lt_R0.
      rewrite normalize_col3_nonzero by (rewrite H1; lra).
      rewrite H1, sqrt_1. f_equal; field; lra. }
  split; [apply Hunit|].
  destruct (list_eq_dec (list_eq_dec Req_dec_T) (np.col3 p1 p2 p3) p_zero)
    as [E|N].
  - rewrite E, !normalize_zero. reflexivity.
  - apply Hunit, N.
Qed.

Lemma scaled_sum_squares (c p1 p2 p3 : R) :
  (c * p1) ^ 2 + (c * p2) ^ 2 + (c * p3) ^ 2
  = (c * c) * (p1 ^ 2 + p2 ^ 2 + p3 ^ 2).
Proof. ring. Qed.

Lemma sqrt_scaled (c s : R) : 0 <= s -> sqrt ((c * c) * s) = Rabs c * sqrt s.
Proof.
  intros Hs. rewrite sqrt_mult_alt by apply Rle_0_sqr.
  f_equal. apply sqrt_Rsqr_abs.
Qed.

(** [normalize] of a scaled vector, by the sign of the factor. *)
Lemma normalize_scaled (c p1 p2 p3 : R) :
  c <> 0 ->
  normalize (np.col3 (c * p1) (c * p2) (c * p3))
  = np.mmap (fun e => (c / Rabs c) * e) (normalize (np.col3 p1 p2 p3)).
Proof.
  intros Hc.
  assert (Hac : 0 < Rabs c) by now apply Rabs_pos_lt.
  destruct (list_eq_dec (list_eq_dec Req_dec_T) (np.col3 p1 p2 p3) p_zero)
    as [E|N].
  - unfold np.col3, p_zero in E. injection E as -> -> ->.
    rewrite !Rmult_0_r. change (np.col3 0 0 0) with p_zero.
    rewrite normalize_zero. unfold p_zero, np.col3, np.mmap. cbn [map].
    now rewrite Rmult_0_r.
  - pose proof (sum_squares_pos p1 p2 p3 N) as Hs.
    assert (Hr : 0 < sqrt (p1 ^ 2 + p2 ^ 2 + p3 ^ 2)) by now apply sqrt_lt_R0.
    assert (Hcs : 0 < (c * p1) ^ 2 + (c * p2) ^ 2 + (c * p3) ^ 2).
    { rewrite scaled_sum_squares. apply Rmult_lt_0_compat; [|exact Hs].
      pose proof (Rlt_0_sqr c Hc) as H. exact H. }
    rewrite (normalize_col3_nonzero _ _ _ Hcs), (normalize_col3_nonzero _ _ _ Hs).
    rewrite scaled_sum_squares, sqrt_scaled by lra.
    unfold np.col3, np.mmap. cbn [map].
    f_equal; [|f_equal; [|f_equal]]; f_equal; field; lra.
Qed.

Lemma mmap_one_col3 (q1 q2 q3 : R) :
  np.mmap (fun e => 1 * e) (np.col3 q1 q2 q3) = np.col3 q1 q2 q3.
Proof. unfold np.col3, np.mmap. cbn [map]. now rewrite !Rmult_1_l. Qed.

Lemma normalize_is_col3 (p1 p2 p3 : R) :
  exists q1 q2 q3 : R,
    normalize (np.col3 p1 p2 p3) = np.col3 q1 q2 q3
    /\ q1 ^ 2 + q2 ^ 2 + q3 ^ 2 <= 1.
Proof.
  destruct (list_eq_dec (list_eq_dec Req_dec_T) (np.col3 p1 p2 p3) p_zero)
    as [E|N].
  - exists 0, 0, 0. rewrite E. split; [exact normalize_zero|lra].
  - pose proof (sum_squares_pos p1 p2 p3 N) as Hs.
    eexists _, _, _. split; [exact (normalize_col3_nonzero _ _ _ Hs)|].
    pose proof (normalized_sum_squares p1 p2 p3 Hs) as H. cbn zeta in H. lra.
Qed.

Lemma normalize_scaled_pos (c p1 p2 p3 : R) :
  0 < c ->
  normalize (c *: np.col3 p1 p2 p3)%num = normalize (np.col3 p1 p2 p3).
Proof.
  intros Hc.
  change (c *: np.col3 p1 p2 p3)%num with (np.col3 (c * p1) (c * p2) (c * p3)).
  rewrite normalize_scaled by lra. rewrite Rabs_right by lra.
  replace (c / c) with 1 by (field; lra).
  destruct (normalize_is_col3 p1 p2 p3) as (q1 & q2 & q3 & -> & _).
  apply mmap_one_col3.
Qed.

Lemma normalize_scaled_neg (c p1 p2 p3 : R) :
  c < 0 ->
  normalize (c *: np.col3 p1 p2 p3)%num
  = np.mmap Ropp (normalize (np.col3 p1 p2 p3)).
Proof.
  intros Hc.
  change (c *: np.col3 p1 p2 p3)%num with (np.col3 (c * p1) (c * p2) (c * p3)).
  rewrite normalize_scaled by lra. rewrite Rabs_left by lra.
  replace (c / - c) with (- 1) by (field; lra).
  unfold np.mmap. apply map_ext. intros r. apply map_ext. intros e. ring.
Qed.

(** X5.  [normalize] does not see the length of its argument: a vector
    scaled by a positive factor normalizes to the same vector, and one
    scaled by a negative factor to the opposite vector. *)
Theorem normalize_scale_invariant (c p1 p2 p3 : R) :
  (0 < c ->
   normalize (c *: np.col3 p1 p2 p3)%num = normalize (np.col3 p1 p2 p3))
  /\ (c < 0 ->
      normalize (c *: np.col3 p1 p2 p3)%num
      = np.mmap Ropp (normalize (np.col3 p1 p2 p3))).
Proof.
  split; [apply normalize_scaled_pos|apply normalize_scaled_neg].
Qed.

Lemma minus_one_neg : - 1 < 0.
Proof. lra. Qed.

Lemma normalize_scale_invariant_witness :
  normalize (2 *: np.col3 0 3 4)%num = normalize (np.col3 0 3 4)
  /\ normalize ((- 1) *: np.col3 0 3 4)%num
     = np.mmap Ropp (normalize (np.col3 0 3 4)).
Proof.
  split.
  - exact (proj1 (normalize_scale_invariant 2 0 3 4) two_pos).
  - exact (proj2 (normalize_scale_invariant (- 1) 0 3 4) minus_one_neg).
Defined.

Lemma line_grad_inner (a b x y z p1 p2 p3 : R) :
  exists q1 q2 q3 : R,
    normalize (np.col3 p1 p2 p3) = np.col3 q1 q2 q3
    /\ q1 ^ 2 + q2 ^ 2 + q3 ^ 2 <= 1
    /\ line_grad a b (np.col3 x y z) (np.col3 p1 p2 p3)
       = Spec.inner (grad a b (np.col3 x y z) lit_1e_7) (np.col3 q1 q2 q3).
Proof.
  destruct (normalize_is_col3 p1 p2 p3) as (q1 & q2 & q3 & Hq & Hle).
  exists q1, q2, q3. repeat split; auto.
  now apply line_grad_col3.
Qed.

(** X6.  [line_grad] depends on the direction of [p] but not on its
    length: scaling [p] by a positive factor leaves it unchanged, scaling by
    a negative factor changes its sign. *)
Theorem line_grad_scale_invariant (a b x y z c p1 p2 p3 : R) :
  (0 < c ->
   line_grad a b (np.col3 x y z) (c *: np.col3 p1 p2 p3)%num
   = line_grad a b (np.col3 x y z) (np.col3 p1 p2 p3))
  /\ (c < 0 ->
      line_grad a b (np.col3 x y z) (c *: np.col3 p1 p2 p3)%num
      = - line_grad a b (np.col3 x y z) (np.col3 p1 p2 p3)).
Proof.
  split; intros Hc.
  - unfold line_grad. now rewrite normalize_scaled_pos.
  - destruct (line_grad_inner a b x y z p1 p2 p3) as (q1 & q2 & q3 & Hq & _ & ->).
    unfold line_grad. rewrite normalize_scaled_neg, Hq by exact Hc.
    rewrite grad_col3. np_eval. ring.
Qed.

Lemma line_grad_scale_invariant_witness :
  line_grad 2 3 (np.col3 2 3 2) (2 *: np.col3 0 3 4)%num
  = line_grad 2 3 (np.col3 2 3 2) (np.col3 0 3 4)
  /\ line_grad 2 3 (np.col3 2 3 2) ((- 1) *: np.col3 0 3 4)%num
     = - line_grad 2 3 (np.col3 2 3 2) (np.col3 0 3 4).
Proof.
  split.
  - exact (proj1 (line_grad_scale_invariant 2 3 2 3 2 2 0 3 4) two_pos).
  - exact (proj2 (line_grad_scale_invariant 2 3 2 3 2 (- 1) 0 3 4) minus_one_neg).
Defined.

Lemma cauchy_schwarz3 (g1 g2 g3 q1 q2 q3 : R) :
  q1 ^ 2 + q2 ^ 2 + q3 ^ 2 <= 1 ->
  Rsqr (g1 * q1 + g2 * q2 + g3 * q3) <= g1 ^ 2 + g2 ^ 2 + g3 ^ 2.
Proof.
  intros Hq. unfold Rsqr.
  pose proof (Rle_0_sqr (g1 * q2 - g2 * q1)) as H12.
  pose proof (Rle_0_sqr (g1 * q3 - g3 * q1)) as H13.
  pose proof (Rle_0_sqr (g2 * q3 - g3 * q2)) as H23.
  unfold Rsqr in *.
  pose proof (pow2_ge_0 g1). pose proof (pow2_ge_0 g2). pose proof (pow2_ge_0 g3).
  assert (HG : 0 <= g1 ^ 2 + g2 ^ 2 + g3 ^ 2) by lra.
  assert (Hlag :
    (g1 * q1 + g2 * q2 + g3 * q3) * (g1 * q1 + g2 * q2 + g3 * q3)
    + ((g1 * q2 - g2 * q1) * (g1 * q2 - g2 * q1)
       + (g1 * q3 - g3 * q1) * (g1 * q3 - g3 * q1)
       + (g2 * q3 - g3 * q2) * (g2 * q3 - g3 * q2))
    = (g1 ^ 2 + g2 ^ 2 + g3 ^ 2) * (q1 ^ 2 + q2 ^ 2 + q3 ^ 2)) by ring.
  assert ((g1 ^ 2 + g2 ^ 2 + g3 ^ 2) * (q1 ^ 2 + q2 ^ 2 + q3 ^ 2)
          <= (g1 ^ 2 + g2 ^ 2 + g3 ^ 2) * 1)
    by (apply Rmult_le_compat_l; lra).
  lra.
Qed.

Lemma line_grad_along_gradient (a b x y z : R) :
  line_grad a b (np.col3 x y z) (grad a b (np.col3 x y z) lit_1e_7)
  = np.norm (grad a b (np.col3 x y z) lit_1e_7).
Proof.
  rewrite grad_col3. unfold Spec.forward_difference.
  set (g1 := (Spec.objective a b (x + lit_1e_7) y z - Spec.objective a b x y z) / lit_1e_7).
  set (g2 := (Spec.objective a b x (y + lit_1e_7) z - Spec.objective a b x y z) / lit_1e_7).
  set (g3 := (Spec.objective a b x y (z + lit_1e_7) - Spec.objective a b x y z) / lit_1e_7).
  rewrite norm_col3.
  destruct (list_eq_dec (list_eq_dec Req_dec_T) (np.col3 g1 g2 g3) p_zero)
    as [E|N].
  - rewrite E, line_grad_zero_direction.
    unfold np.col3, p_zero in E. injection E as -> -> ->.
    replace (0 ^ 2 + 0 ^ 2 + 0 ^ 2) with 0 by ring. now rewrite sqrt_0.
  - pose proof (sum_squares_pos g1 g2 g3 N) as Hs.
    assert (Hr : 0 < sqrt (g1 ^ 2 + g2 ^ 2 + g3 ^ 2)) by now apply sqrt_lt_R0.
    rewrite (line_grad_col3 a b x y z (np.col3 g1 g2 g3)
               (normalize_col3_nonzero g1 g2 g3 Hs)).
    rewrite grad_col3. unfold Spec.forward_difference. fold g1 g2 g3.
    set (r := sqrt (g1 ^ 2 + g2 ^ 2 + g3 ^ 2)) in *.
    replace (Spec.inner (np.col3 g1 g2 g3) (np.col3 (g1 / r) (g2 / r) (g3 / r)))
      with ((g1 ^ 2 + g2 ^ 2 + g3 ^ 2) / r)
      by (unfold Spec.inner, np.col3, np.get, np.row; cbn [nth]; field; lra).
    rewrite <- (sqrt_sqrt (g1 ^ 2 + g2 ^ 2 + g3 ^ 2)) at 1 by lra.
    fold r. field. lra.
Qed.

(** X7.  The directional derivative never exceeds the norm of the estimated
    gradient in absolute value, and along the estimated gradient itself it
    is that norm. *)
Theorem line_grad_bounded_by_gradient (a b x y z p1 p2 p3 : R) :
  Rabs (line_grad a b (np.col3 x y z) (np.col3 p1 p2 p3))
  <= np.norm (grad a b (np.col3 x y z) lit_1e_7)
  /\ line_grad a b (np.col3 x y z) (grad a b (np.col3 x y z) lit_1e_7)
     = np.norm (grad a b (np.col3 x y z) lit_1e_7).
Proof.
  split.
  - destruct (line_grad_inner a b x y z p1 p2 p3) as (q1 & q2 & q3 & _ & Hq & ->).
    rewrite grad_col3. unfold Spec.forward_difference.
    set (g1 := (Spec.objective a b (x + lit_1e_7) y z - Spec.objective a b x y z) / lit_1e_7).
    set (g2 := (Spec.objective a b x (y + lit_1e_7) z - Spec.objective a b x y z) / lit_1e_7).
    set (g3 := (Spec.objective a b x y (z + lit_1e_7) - Spec.objective a b x y z) / lit_1e_7).
    rewrite norm_col3.
    replace (Spec.inner (np.col3 g1 g2 g3) (np.col3 q1 q2 q3))
      with (g1 * q1 + g2 * q2 + g3 * q3) by reflexivity.
    rewrite <- sqrt_Rsqr_abs. apply sqrt_le_1_alt.
    now apply cauchy_schwarz3.
  - apply line_grad_along_gradient.
Qed.

(** ** The line search: where it goes and when it fails *)

Lemma bracket_width_abs (lb : R) : Rmax 0 lb - Rmin 0 lb = Rabs lb.
Proof.
  destruct (Rle_or_lt 0 lb) as [H|H].
  - rewrite Rmax_right, Rmin_left, Rabs_right by lra. lra.
  - rewrite Rmax_left, Rmin_right, Rabs_left by lra. lra.
Qed.

(** A step strictly between 0 and [- g F], for a positive [F]. *)
Lemma step_inside_bracket (g F l : R) :
  0 < F ->
  Rmin 0 (- g * F) < l < Rmax 0 (- g * F) ->
  l <> 0 /\ g <> 0 /\ (0 < g -> l < 0) /\ (g < 0 -> 0 < l)
  /\ Rabs l < Rabs g * F.
Proof.
  intros HF [HL HU].
  destruct (Rtotal_order g 0) as [Hneg|[Hzero|Hpos]].
  - assert (0 < - g * F) by (apply Rmult_lt_0_compat; lra).
    rewrite Rmin_left in HL by lra. rewrite Rmax_right in HU by lra.
    rewrite (Rabs_right l), (Rabs_left g) by lra.
    split; [lra|]. split; [lra|]. repeat split; intros; lra.
  - rewrite Hzero in HL, HU.
    replace (- 0 * F) with 0 in HL, HU by ring.
    rewrite Rmin_left in HL by lra. rewrite Rmax_left in HU by lra. lra.
  - assert (- g * F < 0).
    { replace (- g * F) with (- (g * F)) by ring.
      apply Ropp_lt_gt_0_contravar. now apply Rmult_gt_0_compat. }
    rewrite Rmin_right in HL by lra. rewrite Rmax_left in HU by lra.
    rewrite (Rabs_left l), (Rabs_right g) by lra.
    split; [lra|]. split; [lra|]. repeat split; intros; lra.
Qed.

(** The step of a normal return: its sign and its size. *)
Lemma line_search_step_facts
    (a b x1 x2 x3 p1 p2 p3 feeler_init feeler_step tolerance : R)
    (max_iters : Z) (x' : np.matrix R) :
  let x := np.col3 x1 x2 x3 in
  let p := np.col3 p1 p2 p3 in
  0 < feeler_init -> 0 < feeler_step -> 0 <= tolerance ->
  my_line_search a b x p feeler_init feeler_step tolerance max_iters = Ok x' ->
  exists (l : R) (n : nat),
    x' = (x .+ l *: p)%num
    /\ l <> 0
    /\ line_grad a b x p <> 0
    /\ (0 < line_grad a b x p -> l < 0)
    /\ (line_grad a b x p < 0 -> 0 < l)
    /\ Rabs l < Rabs (line_grad a b x p) * feeler_init * feeler_step ^ n.
Proof.
  intros x p Hfi Hfs Htol Hok. subst x p.
  destruct (line_search_normal_return a b x1 x2 x3 p1 p2 p3 max_iters
              Hfi Hfs Htol Hok)
    as (n & s & l & (_ & _ & _ & _ & _ & Hnew) & _ & Hl & Hx').
  destruct (Hnew l Hl) as [_ [HL HU]].
  set (g := line_grad a b (np.col3 x1 x2 x3) (np.col3 p1 p2 p3)) in *.
  assert (HF : 0 < feeler_init * feeler_step ^ n)
    by (apply Rmult_lt_0_compat; [exact Hfi|now apply pow_lt]).
  set (F := feeler_init * feeler_step ^ n) in *.
  replace (- g * feeler_init * feeler_step ^ n) with (- g * F) in HL, HU
    by (unfold F; ring).
  exists l, n. split; [exact Hx'|].
  replace (Rabs g * feeler_init * feeler_step ^ n) with (Rabs g * F)
    by (unfold F; ring).
  destruct (Rtotal_order g 0) as [Hneg|[Hzero|Hpos]].
  - assert (0 < - g * F) by (apply Rmult_lt_0_compat; lra).
    rewrite Rmin_left in HL by lra. rewrite Rmax_right in HU by lra.
    rewrite (Rabs_right l), (Rabs_left g) by lra.
    split; [lra|]. split; [lra|]. repeat split; intros; lra.
  - rewrite Hzero in HL, HU.
    replace (- 0 * F) with 0 in HL, HU by ring.
    rewrite Rmin_left in HL by lra. rewrite Rmax_left in HU by lra. lra.
  - assert (- g * F < 0).
    { replace (- g * F) with (- (g * F)) by ring.
      apply Ropp_lt_gt_0_contravar. now apply Rmult_gt_0_compat. }
    rewrite Rmin_right in HL by lra. rewrite Rmax_left in HU by lra.
    rewrite (Rabs_left l), (Rabs_right g) by lra.
    split; [lra|]. split; [lra|]. repeat split; intros; lra.
Qed.

(** X8.  For positive [feeler_init] and [feeler_step] and a tolerance that is
    not negative, a normal return of the line search is [x + l p] for a step
    [l] that is not 0 and is taken against the sign of the derivative at the
    start (backwards along [p] when that derivative is positive, forwards
    when it is negative; the derivative at the start is not 0).  The step is
    shorter than the last feeler: with [n] the number of doublings that the
    first loop has made, so that its test held at the first [lb] and after
    each of the first [n - 1] doublings and failed after the [n]-th, and the
    loop has left lb = - line_grad(x, p) feeler_init feeler_step^n,
    |l| < |line_grad(x, p)| feeler_init feeler_step^n. *)
Theorem line_search_steps_downhill
    (a b x1 x2 x3 p1 p2 p3 feeler_init feeler_step tolerance : R)
    (max_iters : Z) (x' : np.matrix R) :
  let x := np.col3 x1 x2 x3 in
  let p := np.col3 p1 p2 p3 in
  let lgla := line_grad a b x p in
  let lb (k : nat) := - lgla * feeler_init * feeler_step ^ k in
  let product (k : nat) := lgla * line_grad a b (x .+ lb k *: p)%num p in
  0 < feeler_init -> 0 < feeler_step -> 0 <= tolerance ->
  my_line_search a b x p feeler_init feeler_step tolerance max_iters = Ok x' ->
  exists (l : R) (n : nat),
    x' = (x .+ l *: p)%num
    /\ l <> 0
    /\ lgla <> 0
    /\ (0 < lgla -> l < 0)
    /\ (lgla < 0 -> 0 < l)
    /\ expand a b x p feeler_step max_iters (loop_fuel max_iters)
         lgla 0 (- lgla * feeler_init) = Ok (lb n)
    /\ (forall k : nat, (k < n)%nat -> product k > 0)
    /\ product n <= 0
    /\ Rabs l < Rabs lgla * feeler_init * feeler_step ^ n.
Proof.
  intros x p lgla lb product Hfi Hfs Htol Hok.
  assert (Hlb : forall k, nth_lb feeler_step (- lgla * feeler_init) k = lb k)
    by (intros k; apply nth_lb_pow).
  destruct (expand_cases a b x p feeler_step max_iters lgla 0
              (- lgla * feeler_init) (loop_fuel_enough max_iters))
    as [(n & He & Hn & Hlt & _)|(He & _)].
  2:{ unfold my_line_search in Hok. fold lgla in Hok.
      change (num_mul (num_opp lgla) feeler_init)
        with (- lgla * feeler_init) in Hok.
      rewrite He in Hok. discriminate. }
  rewrite Hlb in He.
  rewrite (my_line_search_after_expand a b x p feeler_init feeler_step
             tolerance max_iters He) in Hok.
  destruct (bisect_cases a b x p tolerance max_iters 0
              (Bracket (py_min 0 (lb n)) (py_max 0 (lb n)) None)
              (loop_fuel_enough max_iters))
    as [(m & Hb & _ & Hruns & _)|(Hb & _)];
    rewrite Hb in Hok; [|discriminate].
  destruct (lnew _) as [l|] eqn:Hl in Hok; [|discriminate].
  injection Hok as <-.
  assert (Hsign : sign_bracket a b x p (Rmin 0 (lb n)) (Rmax 0 (lb n))
                    (nth_bracket a b x p
                       (Bracket (py_min 0 (lb n)) (py_max 0 (lb n)) None) m)).
  { eapply nth_bracket_invariant; [| |exact Hruns].
    - rewrite <- Hlb. unfold x, p, lgla. apply initial_bracket_sign; auto.
    - intros t Ht Htest. unfold x, p.
      now apply sign_bracket_body with (tolerance := tolerance). }
  destruct Hsign as (_ & _ & _ & _ & _ & Hnew).
  destruct (Hnew l Hl) as [_ Hin].
  assert (HF : 0 < feeler_init * feeler_step ^ n)
    by (apply Rmult_lt_0_compat; [exact Hfi|now apply pow_lt]).
  replace (lb n) with (- lgla * (feeler_init * feeler_step ^ n)) in Hin
    by (unfold lb; ring).
  destruct (step_inside_bracket lgla (feeler_init * feeler_step ^ n) l HF Hin)
    as (Hl0 & Hg0 & Hpos & Hneg & Habs).
  exists l, n. repeat split; auto.
  - intros k Hk. specialize (Hlt k Hk). rewrite Hlb in Hlt.
    unfold x, p in Hlt. apply expand_test_true in Hlt. exact Hlt.
  - rewrite Hlb in Hn. unfold x, p in Hn. apply expand_test_false in Hn.
    exact Hn.
  - replace (Rabs lgla * feeler_init * feeler_step ^ n)
      with (Rabs lgla * (feeler_init * feeler_step ^ n)) by ring.
    exact Habs.
Qed.

Lemma lit_1e_3_pos : 0 < @lit_1e_3 R R_arith.
Proof. unfold lit_1e_3. to_R. lra. Qed.

Lemma lit_1e_7_nonneg : 0 <= @lit_1e_7 R R_arith.
Proof. unfold lit_1e_7. to_R. lra. Qed.

Lemma line_search_steps_downhill_witness :
  exists (l : R) (n : nat),
    np.col3 1 (200007495 / 100000000 - 75) 1 = (x_flat .+ l *: p_long)%num
    /\ l <> 0
    /\ line_grad 2 3 x_flat p_long <> 0
    /\ (0 < line_grad 2 3 x_flat p_long -> l < 0)
    /\ (line_grad 2 3 x_flat p_long < 0 -> 0 < l)
    /\ expand 2 3 x_flat p_long 2 1000 (loop_fuel 1000)
         (line_grad 2 3 x_flat p_long) 0
         (- line_grad 2 3 x_flat p_long * lit_1e_3)
       = Ok (- line_grad 2 3 x_flat p_long * lit_1e_3 * 2 ^ n)
    /\ (forall k : nat, (k < n)%nat ->
          line_grad 2 3 x_flat p_long
          * line_grad 2 3
              (x_flat .+ (- line_grad 2 3 x_flat p_long * lit_1e_3 * 2 ^ k)
                         *: p_long)%num p_long > 0)
    /\ line_grad 2 3 x_flat p_long
       * line_grad 2 3
           (x_flat .+ (- line_grad 2 3 x_flat p_long * lit_1e_3 * 2 ^ n)
                      *: p_long)%num p_long <= 0
    /\ Rabs l < Rabs (line_grad 2 3 x_flat p_long) * lit_1e_3 * 2 ^ n.
Proof.
  exact (line_search_steps_downhill 2 3 1 (200007495 / 100000000) 1
           0 1000000000 0 lit_1e_3 2 lit_1e_7 1000 _
           lit_1e_3_pos two_pos lit_1e_7_nonneg line_search_example).
Defined.

(** X9.  Under the same conditions, a normal return of the line search is
    never the point it started from, and it never happens for the zero
    direction. *)
Theorem line_search_never_stays
    (a b x1 x2 x3 p1 p2 p3 feeler_init feeler_step tolerance : R)
    (max_iters : Z) (x' : np.matrix R) :
  0 < feeler_init -> 0 < feeler_step -> 0 <= tolerance ->
  my_line_search a b (np.col3 x1 x2 x3) (np.col3 p1 p2 p3)
    feeler_init feeler_step tolerance max_iters = Ok x' ->
  x' <> np.col3 x1 x2 x3 /\ np.col3 p1 p2 p3 <> p_zero.
Proof.
  intros Hfi Hfs Htol Hok. split.
  - exact (@line_search_moves a b x1 x2 x3 p1 p2 p3 feeler_init feeler_step
             tolerance max_iters x' Hfi Hfs Htol Hok).
  - intros E. rewrite E in Hok. unfold p_zero in Hok.
    rewrite (@line_search_flat_start a b x1 x2 x3 0 0 0 feeler_init feeler_step
               tolerance max_iters Htol (line_grad_zero_direction a b x1 x2 x3))
      in Hok.
    discriminate.
Qed.

Lemma line_search_never_stays_witness :
  np.col3 1 (200007495 / 100000000 - 75) 1 <> x_flat /\ p_long <> p_zero.
Proof.
  exact (line_search_never_stays 2 3 1 (200007495 / 100000000) 1
           0 1000000000 0 lit_1e_3 2 lit_1e_7 1000 _
           lit_1e_3_pos two_pos lit_1e_7_nonneg line_search_example).
Defined.

Lemma bisect_body_binds_lnew (a b : R) (x p : np.matrix R) (s : bracket R) :
  lnew (bisect_body a b x p s) <> None.
Proof.
  unfold bisect_body. cbn zeta.
  destruct (num_gtb _ _); cbn [lnew]; discriminate.
Qed.

(** X10.  [my_line_search] raises [UnboundLocalError] exactly when the first
    loop leaves normally with an [lb] whose absolute value is at most
    [tolerance]: the bracket between 0 and [lb] is then already narrow
    enough, the body of the second loop never runs, and [lnew] is read
    unbound.  This covers a derivative at the start that is 0, and also one
    that is small but not 0. *)
Theorem line_search_unbound_iff
    (a b x1 x2 x3 p1 p2 p3 feeler_init feeler_step tolerance : R)
    (max_iters : Z) :
  let x := np.col3 x1 x2 x3 in
  let p := np.col3 p1 p2 p3 in
  let lgla := line_grad a b x p in
  my_line_search a b x p feeler_init feeler_step tolerance max_iters
  = Raise (UnboundLocalError "lnew")
  <-> exists n : nat,
        expand a b x p feeler_step max_iters (loop_fuel max_iters)
          lgla 0 (- lgla * feeler_init)
        = Ok (- lgla * feeler_init * feeler_step ^ n)
        /\ Rabs (- lgla * feeler_init * feeler_step ^ n) <= tolerance.
Proof.
  intros x p lgla. unfold my_line_search. fold lgla.
  change (num_mul (num_opp lgla) feeler_init) with (- lgla * feeler_init).
  split.
  - intros H.
    destruct (expand_cases a b x p feeler_step max_iters lgla 0
                (- lgla * feeler_init) (loop_fuel_enough max_iters))
      as [(n & He & _)|(He & _)]; rewrite He in H; cbn [bind] in H;
      [|discriminate].
    exists n. rewrite nth_lb_pow in He. split; [exact He|].
    rewrite nth_lb_pow in H.
    set (lb := - lgla * feeler_init * feeler_step ^ n) in *.
    match type of H with
    | context [bisect _ _ _ _ _ _ _ _ ?s0] =>
        destruct (bisect_cases a b x p tolerance max_iters 0 s0
                    (loop_fuel_enough max_iters))
          as [(m & Hb & Hm & _)|(Hb & _)]
    end; rewrite Hb in H; cbn [bind] in H; [|discriminate].
    destruct m as [|m].
    + rewrite nth_bracket_zero in Hm. apply bisect_test_false in Hm.
      cbn [lmin lmax] in Hm. rewrite py_min_R, py_max_R in Hm.
      now rewrite bracket_width_abs in Hm.
    + rewrite nth_bracket_succ in H.
      pose proof (bisect_body_binds_lnew a b x p
                    (nth_bracket a b x p
                       (Bracket (py_min (ofZ 0) lb) (py_max (ofZ 0) lb) None) m))
        as Hsome.
      destruct (lnew _); [discriminate|contradiction].
  - intros (n & He & Hw). rewrite He. cbn [bind].
    set (lb := - lgla * feeler_init * feeler_step ^ n) in *.
    rewrite (bisect_ok a b x p tolerance 0 _ (n := 0));
      [|apply loop_fuel_enough|intros j Hj; lia| |now left].
    + rewrite nth_bracket_zero. reflexivity.
    + rewrite nth_bracket_zero. apply bisect_test_false.
      cbn [lmin lmax]. rewrite py_min_R, py_max_R.
      now rewrite bracket_width_abs.
Qed.

(** From [x_nearly_flat] along [p_long] the derivative at the start is
    0.5e-4, the first [lb] is -0.5e-7 and closes the bracket at once. *)
Lemma line_grad_x_nearly_flat : line_grad 2 3 x_nearly_flat p_long = 1 / 20000.
Proof. unfold x_nearly_flat, p_long. rewrite line_grad_along_y by lra. lra. Qed.

Lemma expand_x_nearly_flat :
  let lgla := line_grad 2 3 x_nearly_flat p_long in
  expand 2 3 x_nearly_flat p_long 2 1000 (loop_fuel 1000) lgla 0
    (- lgla * lit_1e_3)
  = Ok (- lgla * lit_1e_3 * 2 ^ 0)
  /\ Rabs (- lgla * lit_1e_3 * 2 ^ 0) <= lit_1e_7.
Proof.
  cbn zeta. rewrite line_grad_x_nearly_flat.
  assert (Hlb : - (1 / 20000) * lit_1e_3 = - 1 / 20000000)
    by (unfold lit_1e_3; to_R; lra).
  rewrite Hlb. split.
  - rewrite (expand_ok 2 3 x_nearly_flat p_long 2 (1 / 20000) 0
               (- 1 / 20000000) (n := 0));
      [|apply loop_fuel_enough|intros j Hj; lia| |now left].
    + rewrite nth_lb_zero. f_equal. lra.
    + rewrite nth_lb_zero. unfold x_nearly_flat, p_long.
      apply expand_test_false. unfold phi. rewrite at_step_col3.
      rewrite line_grad_along_y by lra. lra.
  - unfold lit_1e_7. to_R. rewrite Rabs_left by lra. lra.
Qed.

Lemma line_search_unbound_iff_witness :
  line_grad 2 3 x_nearly_flat p_long <> 0
  /\ my_line_search 2 3 x_nearly_flat p_long lit_1e_3 2 lit_1e_7 1000
     = Raise (UnboundLocalError "lnew").
Proof.
  split.
  - rewrite line_grad_x_nearly_flat. exact (Rgt_not_eq _ _ (Rdiv_lt_0_compat _ _ Rlt_0_1 (IZR_lt 0 20000 eq_refl))).
  - exact (proj2 (line_search_unbound_iff 2 3 1 (200002495 / 100000000) 1
                    0 1000000000 0 lit_1e_3 2 lit_1e_7 1000)
                 (ex_intro _ 0%nat expand_x_nearly_flat)).
Defined.

(** ** The step returned is near a step at which the derivative is 0 *)

Lemma continuity_pointwise (u v : R -> R) :
  (forall l : R, u l = v l) -> continuity v -> continuity u.
Proof.
  intros Heq Hv l.
  unfold continuity_pt, continue_in, limit1_in, limit_in in *.
  intros eps Heps. destruct (Hv l eps Heps) as (alp & Halp & H).
  exists alp. split; [exact Halp|].
  intros l' Hl'. rewrite !Heq. now apply H.
Qed.

(** Along a fixed direction the derivative measured by [line_grad] is a
    polynomial in the step length. *)
Lemma phi_continuous (a b x1 x2 x3 p1 p2 p3 : R) :
  continuity (phi a b (np.col3 x1 x2 x3) (np.col3 p1 p2 p3)).
Proof.
  destruct (normalize_is_col3 p1 p2 p3) as (q1 & q2 & q3 & Hq & _).
  apply continuity_pointwise with
    (v := fun l =>
       (Spec.objective a b (x1 + l * p1 + 1 / 10000000) (x2 + l * p2) (x3 + l * p3)
        - Spec.objective a b (x1 + l * p1) (x2 + l * p2) (x3 + l * p3))
       / (1 / 10000000) * q1
       + (Spec.objective a b (x1 + l * p1) (x2 + l * p2 + 1 / 10000000) (x3 + l * p3)
          - Spec.objective a b (x1 + l * p1) (x2 + l * p2) (x3 + l * p3))
         / (1 / 10000000) * q2
       + (Spec.objective a b (x1 + l * p1) (x2 + l * p2) (x3 + l * p3 + 1 / 10000000)
          - Spec.objective a b (x1 + l * p1) (x2 + l * p2) (x3 + l * p3))
         / (1 / 10000000) * q3).
  - intros l. unfold phi. rewrite at_step_col3.
    rewrite (line_grad_col3 a b _ _ _ (np.col3 p1 p2 p3) Hq).
    rewrite grad_col3. reflexivity.
  - unfold Spec.objective. reg.
Qed.

(** X11.  For positive [feeler_init] and [feeler_step] and a tolerance that
    is not negative, a normal return of the line search is [x + l p] for a
    step [l] that is within [tolerance] of a step [l0] at which the
    directional derivative along [p] is exactly 0. *)
Theorem line_search_near_stationary_step
    (a b x1 x2 x3 p1 p2 p3 feeler_init feeler_step tolerance : R)
    (max_iters : Z) (x' : np.matrix R) :
  let x := np.col3 x1 x2 x3 in
  let p := np.col3 p1 p2 p3 in
  0 < feeler_init -> 0 < feeler_step -> 0 <= tolerance ->
  my_line_search a b x p feeler_init feeler_step tolerance max_iters = Ok x' ->
  exists l l0 : R,
    x' = (x .+ l *: p)%num
    /\ line_grad a b (x .+ l0 *: p)%num p = 0
    /\ Rabs (l - l0) <= tolerance.
Proof.
  intros x p Hfi Hfs Htol Hok. subst x p.
  destruct (line_search_normal_return a b x1 x2 x3 p1 p2 p3 max_iters
              Hfi Hfs Htol Hok)
    as (n & s & l & (_ & Hord & _ & Hlo & Hhi & Hnew) & Hw & Hl & Hx').
  destruct (Hnew l Hl) as [Hend _].
  destruct (IVT_cor (phi a b (np.col3 x1 x2 x3) (np.col3 p1 p2 p3))
              (lmin s) (lmax s)
              (phi_continuous a b x1 x2 x3 p1 p2 p3) Hord)
    as (l0 & Hl0 & Hzero).
  - assert (0 <= - phi a b (np.col3 x1 x2 x3) (np.col3 p1 p2 p3) (lmin s)
                 * phi a b (np.col3 x1 x2 x3) (np.col3 p1 p2 p3) (lmax s))
      by (apply Rmult_le_pos; lra).
    lra.
  - exists l, l0. split; [exact Hx'|]. split; [exact Hzero|].
    apply Rabs_le. destruct Hend; subst l; lra.
Qed.

Lemma line_search_near_stationary_step_witness :
  exists l l0 : R,
    np.col3 1 (200007495 / 100000000 - 75) 1 = (x_flat .+ l *: p_long)%num
    /\ line_grad 2 3 (x_flat .+ l0 *: p_long)%num p_long = 0
    /\ Rabs (l - l0) <= lit_1e_7.
Proof.
  exact (line_search_near_stationary_step 2 3 1 (200007495 / 100000000) 1
           0 1000000000 0 lit_1e_3 2 lit_1e_7 1000 _
           lit_1e_3_pos two_pos lit_1e_7_nonneg line_search_example).
Defined.

(** ** Shapes *)

Section Shapes.
Context {A : Type} {ar : Arith A}.
Variables a b : A.

Lemma grad_is_col3 (pt : np.matrix A) (delta : A) :
  is_col3 pt -> is_col3 (grad a b pt delta).
Proof. intros (x & y & z & ->). eexists _, _, _. reflexivity. Qed.

Lemma at_step_is_col3 (x p : np.matrix A) (l : A) :
  is_col3 x -> is_col3 p -> is_col3 (at_step x p l).
Proof.
  intros (x1 & x2 & x3 & ->) (p1 & p2 & p3 & ->).
  eexists _, _, _. reflexivity.
Qed.

Lemma get_next_p_is_col3 (this_x next_x this_p : np.matrix A) :
  is_col3 this_x -> is_col3 next_x -> is_col3 this_p ->
  is_col3 (get_next_p a b this_x next_x this_p).
Proof.
  intros (x1 & x2 & x3 & ->) (y1 & y2 & y3 & ->) (p1 & p2 & p3 & ->).
  eexists _, _, _. reflexivity.
Qed.

Lemma get_next_x_is_col3 (this_x this_p x' : np.matrix A) :
  is_col3 this_x -> is_col3 this_p ->
  get_next_x a b this_x this_p = Ok x' -> is_col3 x'.
Proof.
  intros Hx Hp Hok. unfold get_next_x in Hok.
  destruct (my_line_search_ok_inv _ _ _ _ _ _ _ _ Hok)
    as (n & m & l & _ & _ & _ & _ & ->).
  now apply at_step_is_col3.
Qed.

Lemma Forall_snoc {X : Type} (P : X -> Prop) (xs : list X) (u : X) :
  Forall P xs -> P u -> Forall P (xs ++ [u]).
Proof. intros Hxs Hu. apply Forall_app. split; [exact Hxs|]. now constructor. Qed.

Lemma driver_loop_shape (n_iters : Z) (fuel : nat) :
  forall s s' : driver_state A,
    is_col3 (this_x s) -> is_col3 (this_p s) ->
    Forall is_col3 (x_ts s) -> Forall is_col3 (p_ts s) ->
    driver_loop a b n_iters fuel s = Ok s' ->
    is_col3 (this_x s') /\ is_col3 (this_p s')
    /\ Forall is_col3 (x_ts s') /\ Forall is_col3 (p_ts s').
Proof.
  induction fuel as [|fuel IH]; intros s s' Hx Hp Hxs Hps Hrun; [discriminate|].
  cbn [driver_loop] in Hrun.
  destruct (i s <? n_iters)%Z.
  - unfold driver_body in Hrun.
    destruct (get_next_x a b (this_x s) (this_p s)) as [nx| |] eqn:Hnx;
      try discriminate.
    cbn [bind] in Hrun.
    pose proof (get_next_x_is_col3 _ _ _ Hx Hp Hnx) as Hnx3.
    pose proof (get_next_p_is_col3 _ _ _ Hx Hnx3 Hp) as Hnp3.
    apply IH in Hrun; cbn [this_x this_p x_ts p_ts]; auto using Forall_snoc.
  - injection Hrun as <-. auto.
Qed.

(** X12.  Over any arithmetic: when the start point is an array of shape
    (3,1) and the driver returns normally, every point and every direction
    it has recorded is an array of shape (3,1), and so are the current point
    and direction. *)
Theorem driver_keeps_shape (x0 : np.matrix A) (n_iters : Z)
    (s : driver_state A) :
  is_col3 x0 ->
  driver a b x0 n_iters = Ok s ->
  Forall is_col3 (x_ts s) /\ Forall is_col3 (p_ts s)
  /\ is_col3 (this_x s) /\ is_col3 (this_p s).
Proof.
  intros H0 Hrun. unfold driver in Hrun.
  pose proof (grad_is_col3 x0 lit_1e_7 H0) as Hp0.
  apply driver_loop_shape in Hrun; cbn [driver_init this_x this_p x_ts p_ts];
    auto.
  tauto.
Qed.

(** X13.  Over any arithmetic: for [n_iters] at most 1, zero and negative
    counts included, the driver runs no line search and returns with the start
    pair alone, so that [x_ts] and [p_ts] have length 1. *)
Theorem driver_without_iterations (x0 : np.matrix A) (n_iters : Z) :
  (n_iters <= 1)%Z ->
  driver a b x0 n_iters = Ok (driver_init a b x0)
  /\ x_ts (driver_init a b x0) = [x0]
  /\ p_ts (driver_init a b x0) = [grad a b x0 lit_1e_7].
Proof.
  intros Hn. repeat split.
  unfold driver. cbn [driver_loop driver_init i].
  destruct (Z.ltb_spec 1 n_iters); [lia|reflexivity].
Qed.

(** The first line search failing, the driver fails with the same error. *)
Lemma driver_first_search_raises (x0 : np.matrix A) (n_iters : Z) (e : exn) :
  (2 <= n_iters)%Z ->
  get_next_x a b x0 (grad a b x0 lit_1e_7) = Raise e ->
  driver a b x0 n_iters = Raise e.
Proof.
  intros Hn Hraise. unfold driver. cbn [driver_loop driver_init i].
  destruct (Z.ltb_spec 1 n_iters); [|lia].
  unfold driver_body, driver_init. cbn [this_x this_p]. now rewrite Hraise.
Qed.

(** X14.  Over any arithmetic: on a normal return of the driver with
    [n_iters] at least 1, the counter [i] equals [n_iters] and the current
    point and direction are the last entries of [x_ts] and [p_ts]. *)
Theorem driver_final_state (x0 : np.matrix A) (n_iters : Z)
    (s : driver_state A) :
  (1 <= n_iters)%Z ->
  driver a b x0 n_iters = Ok s ->
  i s = n_iters
  /\ nth_error (x_ts s) (Z.to_nat n_iters - 1) = Some (this_x s)
  /\ nth_error (p_ts s) (Z.to_nat n_iters - 1) = Some (this_p s).
Proof.
  intros Hn Hrun. unfold driver in Hrun.
  eapply driver_loop_inv in Hrun;
    [|exact (driver_init_inv a b x0)|cbn [driver_init i]; lia].
  destruct Hrun as [(Hi & Hx & Hp & _ & Hlast & _) Hend].
  rewrite Hend in *. split; [reflexivity|].
  unfold trajectory in Hlast.
  assert (Hlen : length (x_ts s) = length (p_ts s)) by congruence.
  clear - Hlast Hlen.
  revert Hlast Hlen. generalize (Z.to_nat n_iters - 1)%nat as k.
  generalize (p_ts s) as ps. generalize (x_ts s) as xs.
  induction xs as [|u xs IH]; intros [|v ps] k Hlast Hlen;
    try discriminate; destruct k as [|k]; cbn in *; try discriminate.
  - injection Hlast as <- <-. auto.
  - apply IH; auto.
Qed.
End Shapes.

Lemma driver_without_iterations_witness :
  driver 2 3 x0 0 = Ok (driver_init 2 3 x0)
  /\ x_ts (driver_init 2 3 x0) = [x0]
  /\ p_ts (driver_init 2 3 x0) = [grad 2 3 x0 lit_1e_7].
Proof.
  exact (@driver_without_iterations R R_arith 2 3 x0 0 (Z.le_0_1)).
Defined.

(** ** The driver in exact arithmetic *)

Lemma grad_at_x_star (a b delta : R) :
  delta <> 0 -> grad a b (x_star delta) delta = p_zero.
Proof.
  intros Hd. unfold x_star. rewrite grad_col3.
  unfold Spec.forward_difference, Spec.objective, p_zero.
  f_equal; field; exact Hd.
Qed.

(** X15.  When the estimated gradient at the start point is the zero
    vector, the driver asked for two iterations or more raises
    [UnboundLocalError]: the first line search is called with the zero
    direction.  The start point (1 - 0.5e-7, 2 - 0.5e-7, 1 - 0.5e-7) is such
    a point. *)
Theorem driver_fails_at_zero_gradient (a b x y z : R) (n_iters : Z) :
  (2 <= n_iters)%Z ->
  grad a b (np.col3 x y z) lit_1e_7 = p_zero ->
  driver a b (np.col3 x y z) n_iters = Raise (UnboundLocalError "lnew").
Proof.
  intros Hn Hg. apply driver_first_search_raises; [exact Hn|].
  rewrite Hg. unfold get_next_x, p_zero.
  apply line_search_flat_start.
  - exact lit_1e_7_nonneg.
  - apply line_grad_zero_direction.
Qed.

Lemma lit_1e_7_nonzero : @lit_1e_7 R R_arith <> 0.
Proof. unfold lit_1e_7. to_R. lra. Qed.

Lemma two_le_twenty : (2 <= 20)%Z.
Proof. intros H. discriminate H. Qed.

Lemma driver_fails_at_zero_gradient_witness :
  driver 2 3 (x_star lit_1e_7) 20 = Raise (UnboundLocalError "lnew").
Proof.
  exact (driver_fails_at_zero_gradient 2 3
           (1 - lit_1e_7 / 2) (2 - lit_1e_7 / 2) (1 - lit_1e_7 / 2) 20
           two_le_twenty (grad_at_x_star 2 3 lit_1e_7 lit_1e_7_nonzero)).
Defined.

Lemma nth_error_combine_fst {X Y : Type} (xs : list X) (ys : list Y)
    (k : nat) (u : X) (v : Y) :
  nth_error (combine xs ys) k = Some (u, v) -> nth_error xs k = Some u.
Proof.
  revert ys k. induction xs as [|x' xs IH]; intros [|y' ys] [|k] H;
    cbn in *; try discriminate.
  - now injection H as -> _.
  - now apply IH with ys.
Qed.

(** X16.  In exact arithmetic, when the driver asked for two iterations or
    more returns normally, the estimated gradient at the start point is not
    the zero vector and the first iterate, [x_ts[1]], is x0 + l grad(x0) with
    [l] negative: the first step goes against the estimated gradient. *)
Theorem driver_first_step_descends (a b x y z : R) (n_iters : Z)
    (s : driver_state R) :
  let x0 := np.col3 x y z in
  (2 <= n_iters)%Z ->
  driver a b x0 n_iters = Ok s ->
  exists l : R,
    l < 0
    /\ grad a b x0 lit_1e_7 <> p_zero
    /\ nth_error (x_ts s) 1 = Some (x0 .+ l *: grad a b x0 lit_1e_7)%num.
Proof.
  intros X0 Hn Hrun. unfold driver in Hrun.
  eapply driver_loop_inv in Hrun;
    [|exact (driver_init_inv a b X0)|cbn [driver_init i]; lia].
  destruct Hrun as [(_ & Hx & Hp & H0 & _ & Hrec) Hend].
  rewrite Hend in *.
  assert (Hlen : length (trajectory s) = Z.to_nat n_iters)
    by (unfold trajectory; rewrite length_combine; lia).
  destruct (nth_error (trajectory s) 1) as [[x1 p1]|] eqn:H1.
  2:{ apply nth_error_None in H1. lia. }
  destruct (Hrec 0%nat _ _ _ _ H0 H1) as [Hsearch _].
  apply nth_error_combine_fst in H1.
  unfold X0 in *. rewrite grad_col3 in *.
  unfold Spec.forward_difference in *.
  set (g1 := (Spec.objective a b (x + lit_1e_7) y z - Spec.objective a b x y z) / lit_1e_7) in *.
  set (g2 := (Spec.objective a b x (y + lit_1e_7) z - Spec.objective a b x y z) / lit_1e_7) in *.
  set (g3 := (Spec.objective a b x y (z + lit_1e_7) - Spec.objective a b x y z) / lit_1e_7) in *.
  unfold get_next_x in Hsearch.
  destruct (line_search_step_facts a b x y z g1 g2 g3 lit_1e_3 2 lit_1e_7 1000 x1
              lit_1e_3_pos two_pos lit_1e_7_nonneg Hsearch)
    as (l & n & -> & _ & Hne & Hpos & _ & _).
  assert (Hg : line_grad a b (np.col3 x y z) (np.col3 g1 g2 g3)
               = sqrt (g1 ^ 2 + g2 ^ 2 + g3 ^ 2)).
  { pose proof (line_grad_along_gradient a b x y z) as H.
    rewrite grad_col3 in H. unfold Spec.forward_difference in H.
    fold g1 g2 g3 in H. now rewrite norm_col3 in H. }
  exists l. split; [|split; [|exact H1]].
  - apply Hpos. rewrite Hg in *.
    pose proof (sqrt_pos (g1 ^ 2 + g2 ^ 2 + g3 ^ 2)). lra.
  - intros E. apply Hne. rewrite E. apply line_grad_zero_direction.
Qed.

(** ** The table of results *)

Lemma results_cons (m : np.matrix R) (rest : list (np.matrix R)) :
  results (m :: rest)
  = (np.column 0 m
     ++ map (fun k => sqrt (np.sum (map (fun e => e ^ 2)
                                        (np.column k (m .- answer)%num))))
            (seq 0 (np.ncols (m .- answer)%num)))
    :: results rest.
Proof. reflexivity. Qed.

Lemma distance_zero (x y z : R) :
  sqrt ((x - 1) ^ 2 + (y - 2) ^ 2 + (z - 1) ^ 2) = 0
  <-> np.col3 x y z = answer.
Proof.
  pose proof (pow2_ge_0 (x - 1)). pose proof (pow2_ge_0 (y - 2)).
  pose proof (pow2_ge_0 (z - 1)).
  unfold answer, np.col3. to_R. split.
  - intros Hs. apply sqrt_eq_0 in Hs; [|lra].
    assert (E1 : (x - 1) ^ 2 = 0) by lra.
    assert (E2 : (y - 2) ^ 2 = 0) by lra.
    assert (E3 : (z - 1) ^ 2 = 0) by lra.
    replace ((x - 1) ^ 2) with ((x - 1) * (x - 1)) in E1 by ring.
    replace ((y - 2) ^ 2) with ((y - 2) * (y - 2)) in E2 by ring.
    replace ((z - 1) ^ 2) with ((z - 1) * (z - 1)) in E3 by ring.
    apply Rmult_integral in E1, E2, E3.
    f_equal; [|f_equal; [|f_equal]]; f_equal;
      [destruct E1|destruct E2|destruct E3]; lra.
  - intros E. injection E as -> -> ->.
    replace ((1 - 1) ^ 2 + (2 - 2) ^ 2 + (1 - 1) ^ 2) with 0 by ring.
    apply sqrt_0.
Qed.

(** X17.  [results] has one row for each recorded point.  The row of a
    point (x, y, z) is [x, y, z, err], where [err] is the Euclidean distance
    from the point to [answer]; [err] is never negative and is 0 exactly when
    the point is [answer]. *)
Theorem results_table (x_ts : list (np.matrix R)) :
  length (results x_ts) = length x_ts
  /\ forall (k : nat) (x y z : R),
       nth_error x_ts k = Some (np.col3 x y z) ->
       exists err : R,
         nth_error (results x_ts) k = Some [x; y; z; err]
         /\ err = sqrt ((x - 1) ^ 2 + (y - 2) ^ 2 + (z - 1) ^ 2)
         /\ 0 <= err
         /\ (err = 0 <-> np.col3 x y z = answer).
Proof.
  split.
  - induction x_ts as [|m rest IH]; [reflexivity|].
    rewrite results_cons. cbn [length]. now rewrite IH.
  - induction x_ts as [|m rest IH]; intros k x y z Hk.
    + destruct k; discriminate.
    + destruct k as [|k].
      * cbn [nth_error] in Hk. injection Hk as ->.
        exists (sqrt ((x - 1) ^ 2 + (y - 2) ^ 2 + (z - 1) ^ 2)).
        split; [|split; [reflexivity|split; [apply sqrt_pos|apply distance_zero]]].
        rewrite results_cons. cbn [nth_error]. f_equal.
        unfold answer. np_eval. do 4 f_equal. f_equal. ring.
      * rewrite results_cons. cbn [nth_error] in *. now apply IH.
Qed.

(** ** A run of the driver in exact arithmetic

    From [x_axis] the estimated gradient is [p_axis] = (0, 500, 0).  The
    derivative along it at step [l] is 500 + 1000 l, the first [lb] is -1/2
    and closes the bracket at once, and twenty-three bisections bring the
    bracket [-1/2, -1/2 + 2^-24] under the tolerance. *)

Lemma grad_x_axis : grad 2 3 x_axis lit_1e_7 = p_axis.
Proof.
  unfold x_axis, p_axis. rewrite grad_col3.
  unfold Spec.forward_difference, Spec.objective, lit_1e_7. to_R.
  f_equal; field.
Qed.

Lemma phi_x_axis (l : R) : phi 2 3 x_axis p_axis l = 500 + 1000 * l.
Proof. unfold x_axis, p_axis. rewrite phi_along_y by lra. lra. Qed.

Lemma x_axis_bracket (j : nat) :
  nth_bracket 2 3 x_axis p_axis (Bracket (- 1 / 2) 0 None) (S j)
  = Bracket (- 1 / 2) (- 1 / 2 + / 2 ^ (j + 2))
            (Some (- 1 / 2 + / 2 ^ (j + 2))).
Proof.
  assert (Hstep : forall (u : R) (o : option R),
             0 < u ->
             bisect_body 2 3 x_axis p_axis (Bracket (- 1 / 2) (- 1 / 2 + u) o)
             = Bracket (- 1 / 2) (- 1 / 2 + u / 2) (Some (- 1 / 2 + u / 2))).
  { intros u o Hu. unfold x_axis, p_axis.
    rewrite bisect_body_pos; fold x_axis p_axis; cbn [lmin lmax].
    - replace ((- 1 / 2 + u + - 1 / 2) / 2) with (- 1 / 2 + u / 2) by lra.
      reflexivity.
    - rewrite phi_x_axis. lra. }
  induction j as [|j IH].
  - rewrite nth_bracket_succ, nth_bracket_zero.
    replace 0 with (- 1 / 2 + 1 / 2) at 1 by lra.
    rewrite Hstep by lra.
    replace (/ 2 ^ (0 + 2)) with (1 / 2 / 2) by (cbn [Nat.add pow]; lra).
    reflexivity.
  - rewrite nth_bracket_succ, IH.
    assert (Hpos : 0 < 2 ^ (j + 2)) by (apply pow_lt; lra).
    rewrite Hstep by now apply Rinv_0_lt_compat.
    replace (/ 2 ^ (S j + 2)) with (/ 2 ^ (j + 2) / 2)
      by (cbn [Nat.add pow]; field; lra).
    reflexivity.
Qed.

Lemma pow2_23 : 2 ^ 23 = 8388608.
Proof. cbn [pow]. lra. Qed.

Lemma x_axis_search :
  get_next_x 2 3 x_axis p_axis
  = Ok (at_step x_axis p_axis (- 1 / 2 + / 2 ^ 24)).
Proof.
  unfold get_next_x, my_line_search.
  assert (Hg : line_grad 2 3 x_axis p_axis = 500).
  { unfold x_axis, p_axis. rewrite line_grad_along_y by lra. lra. }
  rewrite Hg.
  assert (Hlb : num_mul (num_opp 500) lit_1e_3 = - 1 / 2)
    by (unfold lit_1e_3; to_R; lra).
  rewrite Hlb.
  rewrite (expand_ok 2 3 x_axis p_axis (ofZ 2) 500 0 (- 1 / 2) (n := 0));
    [|apply loop_fuel_enough|intros j Hj; lia| |now left].
  2:{ rewrite nth_lb_zero. unfold x_axis, p_axis.
      apply expand_test_false. fold x_axis p_axis. rewrite phi_x_axis. lra. }
  cbn [bind]. rewrite nth_lb_zero, py_min_R, py_max_R. to_R.
  rewrite Rmin_right, Rmax_left by lra.
  rewrite (bisect_ok 2 3 x_axis p_axis lit_1e_7 0 _ (n := 23));
    [|apply loop_fuel_enough| | |right; lia].
  - change 23%nat with (S 22). rewrite x_axis_bracket. cbn [bind lnew].
    reflexivity.
  - intros j Hj. apply bisect_test_true.
    destruct j as [|j].
    + rewrite nth_bracket_zero. cbn [lmin lmax]. unfold lit_1e_7. to_R. lra.
    + rewrite x_axis_bracket. cbn [lmin lmax].
      assert (Hle : 2 ^ (j + 2) <= 2 ^ 23) by (apply Rle_pow; [lra|lia]).
      rewrite pow2_23 in Hle.
      assert (Hpos : 0 < 2 ^ (j + 2)) by (apply pow_lt; lra).
      assert (Hinv : / 8388608 <= / 2 ^ (j + 2))
        by (apply Rinv_le_contravar; lra).
      unfold lit_1e_7. to_R. lra.
  - apply bisect_test_false. change 23%nat with (S 22).
    rewrite x_axis_bracket. cbn [lmin lmax].
    replace (2 ^ (22 + 2)) with (2 * 2 ^ 23) by (cbn [Nat.add pow]; lra).
    rewrite pow2_23. unfold lit_1e_7. to_R. lra.
Qed.

Lemma driver_two_iterations {A : Type} {ar : Arith A} (a b : A)
    (x0 x1 : np.matrix A) :
  get_next_x a b x0 (grad a b x0 lit_1e_7) = Ok x1 ->
  driver a b x0 2
  = Ok (DriverState x1
          (get_next_p a b x0 x1 (grad a b x0 lit_1e_7))
          [x0; x1]
          [grad a b x0 lit_1e_7; get_next_p a b x0 x1 (grad a b x0 lit_1e_7)]
          2).
Proof.
  intros Hsearch. unfold driver.
  change (Z.to_nat 2) with 2%nat.
  cbn [driver_loop driver_init i].
  change (1 <? 2)%Z with true. cbn iota.
  unfold driver_body, driver_init. cbn [this_x this_p x_ts p_ts i].
  rewrite Hsearch. cbn [bind app i]. reflexivity.
Qed.

Lemma driver_x_axis : driver 2 3 x_axis 2 = Ok x_axis_state.
Proof.
  unfold x_axis_state. cbn zeta.
  rewrite <- grad_x_axis. apply driver_two_iterations.
  rewrite grad_x_axis. exact x_axis_search.
Qed.

Lemma two_le_two : (2 <= 2)%Z.
Proof. apply Z.le_refl. Qed.

Lemma one_le_two : (1 <= 2)%Z.
Proof. intros H. discriminate H. Qed.

Lemma x_axis_is_col3 : is_col3 x_axis.
Proof. eexists _, _, _. reflexivity. Qed.

Lemma driver_first_step_descends_witness :
  exists l : R,
    l < 0
    /\ grad 2 3 x_axis lit_1e_7 <> p_zero
    /\ nth_error (x_ts x_axis_state) 1
       = Some (x_axis .+ l *: grad 2 3 x_axis lit_1e_7)%num.
Proof.
  exact (driver_first_step_descends 2 3
           (1 - 1 / 20000000) (252 - 1 / 20000000) (1 - 1 / 20000000)
           2 x_axis_state two_le_two driver_x_axis).
Defined.

Lemma driver_keeps_shape_witness :
  Forall is_col3 (x_ts x_axis_state)
  /\ Forall is_col3 (p_ts x_axis_state)
  /\ is_col3 (this_x x_axis_state)
  /\ is_col3 (this_p x_axis_state).
Proof.
  exact (@driver_keeps_shape R R_arith 2 3 x_axis 2 x_axis_state
           x_axis_is_col3 driver_x_axis).
Defined.

Lemma driver_final_state_witness :
  i x_axis_state = 2%Z
  /\ nth_error (x_ts x_axis_state) (Z.to_nat 2 - 1)
     = Some (this_x x_axis_state)
  /\ nth_error (p_ts x_axis_state) (Z.to_nat 2 - 1)
     = Some (this_p x_axis_state).
Proof.
  exact (@driver_final_state R R_arith 2 3 x_axis 2 x_axis_state
           one_le_two driver_x_axis).
Defined.

Lemma col3_0_3_4_nonzero : np.col3 0 3 4 <> p_zero.
Proof.
  unfold p_zero, np.col3. intros H. injection H as H _. lra.
Qed.

Lemma normalize_unit_or_zero_witness :
  np.norm (normalize (np.col3 0 3 4)) = 1.
Proof.
  exact (proj1 (proj2 (normalize_unit_or_zero 0 3 4)) col3_0_3_4_nonzero).
Defined.

Lemma results_table_witness :
  exists err : R,
    nth_error (results [x0]) 0 = Some [2; 3; 2; err]
    /\ err = sqrt ((2 - 1) ^ 2 + (3 - 2) ^ 2 + (2 - 1) ^ 2)
    /\ 0 <= err
    /\ (err = 0 <-> np.col3 2 3 2 = answer).
Proof.
  exact (proj2 (results_table [x0]) 0%nat 2 3 2 eq_refl).
Defined.

(** ** The run from [x_axis] as an instance of the theorems on the driver *)

Lemma driver_trajectory_witness :
  length (x_ts x_axis_state) = Z.to_nat 2
  /\ length (p_ts x_axis_state) = Z.to_nat 2
  /\ length (trajectory x_axis_state) = Z.to_nat 2
  /\ nth_error (trajectory x_axis_state) 0
     = Some (x_axis, grad 2 3 x_axis lit_1e_7)
  /\ follows_recurrence 2 3 (trajectory x_axis_state).
Proof.
  exact (@driver_trajectory R R_arith 2 3 x_axis 2 x_axis_state
           one_le_two driver_x_axis).
Defined.

Lemma driver_deterministic_witness :
  recorded (run_cells 2 3 2 fresh_namespace)
  = recorded (run_cells 2 3 2 used_namespace)
  /\ recorded (run_cells 2 3 2 fresh_namespace)
     = Ok (Some (x_ts x_axis_state), Some (p_ts x_axis_state)).
Proof.
  destruct (@driver_deterministic R R_arith 2 3 2
              fresh_namespace used_namespace eq_refl)
    as (Hsame & _ & _ & Hdriver).
  split; [exact Hsame|].
  rewrite (Hdriver x_axis eq_refl), driver_x_axis. reflexivity.
Defined.
